(** * Gateway API: request execution pipeline

    A shallow embedding of the TypeScript sources of the gateway
    (src/server.ts, src/lib/auth.ts, src/lib/http.ts, src/lib/logs.ts,
    src/lib/lint.ts, src/lib/allowlist.ts and the action executors) and
    the properties of its specification that can be settled on them.

    Conventions of the embedding:
    - a JavaScript string is a [string] of 8-bit characters (the UTF-8
      bytes of the text); [toLowerCase] and [trim] act on the ASCII range;
    - a JavaScript number is a [Z] (the integer-valued numbers);
    - [undefined] is [None] of an [option];
    - a [throw] is the [Throw] constructor of [Result];
    - the process-lifetime stores ([idempotencyCache], [logs]) are
      threaded explicitly through the handler as a [Store];
    - what the handler reads from the outside world during one request
      (the UUID generator, the clock, the network) is an [Oracle]. *)

From Stdlib Require Import ZArith Lia Sorted.
From Stdlib.Strings Require Import Ascii String Byte.
From Equations Require Import Equations.
From stdpp Require Import base option list strings gmap pretty.

Set Warnings "-register-all".
Local Open Scope Z_scope.

(** ** Results of computations that may throw *)

Inductive Result (A : Type) : Type :=
| Ok (a : A)
| Throw (message : string).
Arguments Ok {A} a.
Arguments Throw {A} message.

Global Instance Result_ret : MRet Result := @Ok.
Global Instance Result_bind : MBind Result := λ A B k r,
  match r with
  | Ok a => k a
  | Throw m => Throw m
  end.

(** A value together with the equation that it was computed from, for
    case analysis in definitions by well-founded recursion. *)
Definition inspect {A} (a : A) : {b : A | a = b} := exist _ a eq_refl.

(** ** JavaScript strings *)

Module Str.

(** [s.startsWith(p)] *)
Definition startsWith (s p : string) : bool := String.prefix p s.

(** [s.endsWith(p)] *)
Definition endsWith (s p : string) : bool :=
  String.prefix (String.rev p) (String.rev s).

(** [s.includes(p)] *)
Fixpoint includes (s p : string) : bool :=
  if String.prefix p s then true
  else match s with
       | EmptyString => false
       | String _ s' => includes s' p
       end.

(** [s.slice(n)] for [0 <= n] *)
Fixpoint slice (n : nat) (s : string) : string :=
  match n, s with
  | O, _ => s
  | S n', String _ s' => slice n' s'
  | S _, EmptyString => EmptyString
  end.

Definition lower (c : ascii) : ascii :=
  let n := N_of_ascii c in
  if ((65 <=? n) && (n <=? 90))%N then ascii_of_N (n + 32) else c.

(** [s.toLowerCase()] *)
Fixpoint toLowerCase (s : string) : string :=
  match s with
  | EmptyString => EmptyString
  | String c s' => String (lower c) (toLowerCase s')
  end.

Fixpoint dropSpaces (s : string) : string :=
  match s with
  | EmptyString => EmptyString
  | String c s' => if Ascii.is_space c then dropSpaces s' else s
  end.

(** [s.trim()] *)
Definition trim (s : string) : string :=
  String.rev (dropSpaces (String.rev (dropSpaces s))).

(** [s.split(sep)] for a one-character separator; [cur] is the piece
    being read, reversed. *)
Fixpoint split_go (sep : ascii) (cur : string) (s : string) : list string :=
  match s with
  | EmptyString => [String.rev cur]
  | String c s' =>
      if Ascii.eqb c sep then String.rev cur :: split_go sep EmptyString s'
      else split_go sep (String c cur) s'
  end.
Definition split (sep : ascii) (s : string) : list string :=
  split_go sep EmptyString s.

(** [parts.join(sep)] *)
Fixpoint join (sep : string) (parts : list string) : string :=
  match parts with
  | [] => ""
  | [p] => p
  | p :: rest => p +:+ sep +:+ join sep rest
  end.

(** [a < b] on strings: code-unit lexicographic order *)
Definition lt (a b : string) : bool := String.ltb a b.

(** A string is truthy when it is not empty. *)
Definition truthy (s : string) : bool :=
  match s with EmptyString => false | _ => true end.

End Str.

(** An optional string ([string | undefined]) is truthy when it is present
    and not empty. *)
Definition present (o : option string) : option string :=
  match o with
  | Some s => if Str.truthy s then Some s else None
  | None => None
  end.

(** ** JSON values *)

Inductive json : Type :=
| JNull
| JBool (b : bool)
| JNum (n : Z)
| JStr (s : string)
| JArr (items : list json)
| JObj (fields : list (string * json)).

(** Own enumerable properties of an object are kept in the order
    [Object.entries] lists them; a name occurs once. *)
Fixpoint assoc {A} (k : string) (l : list (string * A)) : option A :=
  match l with
  | [] => None
  | (k', v) :: l' => if String.eqb k k' then Some v else assoc k l'
  end.

Definition hasKey {A} (k : string) (l : list (string * A)) : bool :=
  match assoc k l with Some _ => true | None => false end.

(** [obj[k] = v]: an existing property keeps its place. *)
Fixpoint setKey {A} (k : string) (v : A) (l : list (string * A))
    : list (string * A) :=
  match l with
  | [] => [(k, v)]
  | (k', v') :: l' =>
      if String.eqb k k' then (k, v) :: l' else (k', v') :: setKey k v l'
  end.

(** The own enumerable properties a spread [...value] copies. *)
Definition entriesOf (value : json) : list (string * json) :=
  match value with
  | JObj fields => fields
  | JArr items => imap (fun i x => (pretty i, x)) items
  | JStr s =>
      imap (fun i c => (pretty i, JStr (String c EmptyString)))
        (list_ascii_of_string s)
  | _ => []
  end.

(** [{ ...base, ...value }] *)
Definition spread (base : list (string * json)) (value : json)
    : list (string * json) :=
  fold_left (fun acc kv => setKey kv.1 kv.2 acc) (entriesOf value) base.

(** ** The JavaScript runtime

    Library functions of the platform that the sources call and that are
    not code of this repository. *)

Record Runtime := {
  (** [new URL(u).hostname]; [None] when the constructor throws *)
  url_hostname : string → option string;
  (** [JSON.parse(text)]; [None] when it throws *)
  json_parse : string → option json;
  (** [JSON.stringify(value)] *)
  json_stringify : json → string;
  (** [new Date(t).toISOString()] for a clock reading [t] *)
  iso_of_time : Z → string;
  (** [d = new Date(t); d.setDate(d.getDate() - n); d.toISOString()];
      [None] when the date is out of range ([toISOString] throws) *)
  iso_days_before : Z → Z → option string;
  (** [a.localeCompare(b)] *)
  localeCompare : string → string → Z
}.

(** ** src/lib/allowlist.ts *)

Module Allowlist.

Definition allowedHostsOf (allowHosts : string) : list string :=
  Str.trim <$> Str.split "," allowHosts.

Fixpoint hostMatches (hostname : string) (allowedHosts : list string) : bool :=
  match allowedHosts with
  | [] => false
  | allowedHost :: rest =>
      if String.eqb hostname allowedHost then true
      else if Str.endsWith hostname ("." +:+ allowedHost) then true
      else if Str.endsWith allowedHost ("." +:+ hostname) then true
      else hostMatches hostname rest
  end.

Definition isHostAllowed (rt : Runtime) (ALLOW_HOSTS : option string)
    (url : string) : Result bool :=
  match present ALLOW_HOSTS with
  | None => Throw "ALLOW_HOSTS environment variable not configured"
  | Some allowHosts =>
      match url_hostname rt url with
      | None => Ok false
      | Some hostname => Ok (hostMatches hostname (allowedHostsOf allowHosts))
      end
  end.

End Allowlist.

(** ** src/lib/lint.ts *)

Module Lint.

Record LintResult := {
  valid : bool;
  notes : list string;
  errors : list string
}.

(** What one call of [checkObject] pushes: the errors and the notes, in
    the order of the pushes. *)
Definition Pushed : Type := list string * list string.

Definition pushed_app (a b : Pushed) : Pushed := (a.1 ++ b.1, a.2 ++ b.2).

(** [for each (item, index) of items: f item index], in sequence *)
Definition forEachIndexed {A} (f : A → nat → Result Pushed)
    : list A → nat → Result Pushed :=
  fix go (l : list A) (index : nat) {struct l} : Result Pushed :=
    match l with
    | [] => Ok ([], [])
    | x :: l' =>
        a ← f x index;
        b ← go l' (S index);
        Ok (pushed_app a b)
    end.

(** [for each (key, value) of entries: f key value], in sequence *)
Definition forEachEntry {A} (f : string → A → Result Pushed)
    : list (string * A) → Result Pushed :=
  fix go (l : list (string * A)) {struct l} : Result Pushed :=
    match l with
    | [] => Ok ([], [])
    | (key, value) :: l' =>
        a ← f key value;
        b ← go l';
        Ok (pushed_app a b)
    end.

Definition emailError (path : string) : string :=
  "contacts.nodes.email is not supported due to tenant schema limitations. "
  +:+ "Use contacts.edges.node.email instead. Found at: " +:+ path +:+ ".email".

Definition sizeError (path : string) (size : Z) : string :=
  "Page size limit exceeded: " +:+ path +:+ ".size = " +:+ pretty size +:+ ". "
  +:+ "Maximum allowed is 100. Please use pagination for larger result sets.".

Definition unitPriceNote (path : string) : string :=
  "unitPrice used at " +:+ path +:+ " without unitCost. "
  +:+ "Consider using unitCost as it is the authoritative source for pricing data.".

(** [path ? `${path}.${key}` : key] *)
Definition childPath (path key : string) : string :=
  if Str.truthy path then path +:+ "." +:+ key else key.

(** [`${newPath}[${index}]`] *)
Definition itemPath (newPath : string) (index : nat) : string :=
  newPath +:+ "[" +:+ pretty index +:+ "]".

(** The three rules applied to an object with own properties [fields].
    An own property named [hasOwnProperty] shadows the inherited method,
    and calling it throws a [TypeError]. *)
Definition checkRules (fields : list (string * json)) (path : string)
    : Result Pushed :=
  if hasKey "hasOwnProperty" fields
  then Throw "obj.hasOwnProperty is not a function"
  else
    let rule1 :=
      if Str.includes path "contacts.nodes" && hasKey "email" fields
      then [emailError path] else [] in
    let rule2 :=
      match assoc "size" fields with
      | Some (JNum size) => if 100 <? size then [sizeError path size] else []
      | _ => []
      end in
    let rule3 :=
      if hasKey "unitPrice" fields && negb (hasKey "unitCost" fields)
      then [unitPriceNote path] else [] in
    Ok (rule1 ++ rule2, rule3).

Fixpoint checkObject (obj : json) (path : string) {struct obj} : Result Pushed :=
  (* the body of the loop over [Object.entries(obj)] *)
  let visit (newPath : string) (value : json) : Result Pushed :=
    match value with
    | JArr items =>
        forEachIndexed
          (fun item index => checkObject item (itemPath newPath index)) items 0%nat
    | JObj _ => checkObject value newPath
    | _ => Ok ([], [])
    end in
  match obj with
  | JObj fields =>
      here ← checkRules fields path;
      below ← forEachEntry
                (fun key value => visit (childPath path key) value) fields;
      Ok (pushed_app here below)
  | JArr elements =>
      (* an array has no own [email], [size], [unitPrice] or [unitCost];
         its entries are its elements under their indices *)
      forEachIndexed
        (fun value index => visit (childPath path (pretty index)) value)
        elements 0%nat
  | _ => Ok ([], [])
  end.

(** The body of the loop over the entries of an object, as [checkObject]
    runs it. *)
Definition visit (newPath : string) (value : json) : Result Pushed :=
  match value with
  | JArr items =>
      forEachIndexed
        (fun item index => checkObject item (itemPath newPath index))
        items 0%nat
  | JObj _ => checkObject value newPath
  | _ => Ok ([], [])
  end.

Definition lintJobTreadQuery (pave : json) : Result LintResult :=
  p ← checkObject pave "";
  Ok {| valid := match p.1 with [] => true | _ => false end;
        notes := p.2;
        errors := p.1 |}.

End Lint.

(** ** src/lib/logs.ts *)

Inductive Brand := DB | CI.
Inductive Mode := dry_run | execute.
Inductive Status := success | error | warning.

Global Instance Brand_eq_dec : EqDecision Brand.
Proof. solve_decision. Defined.
Global Instance Mode_eq_dec : EqDecision Mode.
Proof. solve_decision. Defined.
Global Instance Status_eq_dec : EqDecision Status.
Proof. solve_decision. Defined.

Module Logs.

(** [interface LogEntry]. TypeScript types are structural: an object with
    further own properties is a [LogEntry] too, and [addLog] stores the
    object it is given; [extra] holds those further properties. *)
Record LogEntry := {
  timestamp : string;
  traceId : string;
  brand : Brand;
  action : string;
  mode : Mode;
  status : Status;
  duration : Z;
  notes : list string;
  error : option string;
  extra : list (string * json)
}.

Record LogFilters := {
  byTraceId : option string;
  byBrand : option Brand;
  byAction : option string;
  byStatus : option Status
}.

(** [parseInt(s, 10)]: leading white space, an optional sign, then the
    longest run of decimal digits; [None] is [NaN]. *)
Fixpoint digitsValue (acc : Z) (seen : bool) (s : string) : option Z :=
  match s with
  | String c s' =>
      match Ascii.is_nat c with
      | Some d => digitsValue (10 * acc + Z.of_nat d) true s'
      | None => if seen then Some acc else None
      end
  | EmptyString => if seen then Some acc else None
  end.

Definition parseInt10 (s : string) : option Z :=
  match Str.dropSpaces s with
  | String "-" s' => Z.opp <$> digitsValue 0 false s'
  | String "+" s' => digitsValue 0 false s'
  | s' => digitsValue 0 false s'
  end.

(** [parseInt(process.env.LOG_RETENTION_DAYS || '60', 10)] *)
Definition retentionDays (LOG_RETENTION_DAYS : option string) : option Z :=
  parseInt10 (default "60" (present LOG_RETENTION_DAYS)).

(** [cutoffDate.toISOString()] after [setDate(getDate() - retentionDays)]
    on the clock reading [now]; with [NaN] days the date is invalid and
    [toISOString] throws. *)
Definition cutoffTimestamp (rt : Runtime) (LOG_RETENTION_DAYS : option string)
    (now : Z) : option string :=
  days ← retentionDays LOG_RETENTION_DAYS;
  iso_days_before rt now days.

(** The clean-up loop of [addLog]:
    [while (i < logs.length) if (logs[i].timestamp < cutoff) logs.splice(i, 1) else i++] *)
Equations? pruneLoop (cutoff : string) (i : nat) (logs : list LogEntry)
    : list LogEntry by wf (length logs - i)%nat lt :=
  pruneLoop cutoff i logs with inspect (logs !! i) => {
    | exist _ None _ => logs;
    | exist _ (Some e) _ with Str.lt (timestamp e) cutoff => {
        | true => pruneLoop cutoff i (delete i logs);
        | false => pruneLoop cutoff (S i) logs } }.
Proof.
  all: match goal with H : _ !! _ = Some _ |- _ =>
         apply lookup_lt_Some in H end.
  - rewrite length_delete by (apply lookup_lt_is_Some_2; lia). lia.
  - lia.
Qed.

(** [addLog(entry)] on the array [logs]: the array afterwards, and
    whether the call returned or threw. The entry is pushed first. *)
Definition addLog (rt : Runtime) (LOG_RETENTION_DAYS : option string)
    (now : Z) (entry : LogEntry) (logs : list LogEntry)
    : list LogEntry * Result unit :=
  let logs := logs ++ [entry] in
  match cutoffTimestamp rt LOG_RETENTION_DAYS now with
  | None => (logs, Throw "Invalid time value")
  | Some cutoff => (pruneLoop cutoff 0 logs, Ok ())
  end.

(** [array.sort(cmp)]: the sort is stable; an element stays in front of a
    later one unless the comparator puts it strictly after. *)
Fixpoint insertBy {A} (cmp : A → A → Z) (x : A) (l : list A) : list A :=
  match l with
  | [] => [x]
  | y :: l' => if cmp x y <=? 0 then x :: y :: l' else y :: insertBy cmp x l'
  end.
Definition sortBy {A} (cmp : A → A → Z) (l : list A) : list A :=
  foldr (insertBy cmp) [] l.

(** [if (filters.f) filteredLogs = filteredLogs.filter(log => log.f === filters.f)] *)
Definition filterBy {F} `{EqDecision F} (want : option F) (get : LogEntry → F)
    (l : list LogEntry) : list LogEntry :=
  match want with
  | Some w => filter (fun log => get log = w) l
  | None => l
  end.

Definition getLogs (rt : Runtime) (filters : option LogFilters)
    (logs : list LogEntry) : list LogEntry :=
  let filteredLogs :=
    match filters with
    | Some f =>
        filterBy (byStatus f) status
          (filterBy (present (byAction f)) action
             (filterBy (byBrand f) brand
                (filterBy (present (byTraceId f)) traceId logs)))
    | None => logs
    end in
  sortBy (fun a b => localeCompare rt (timestamp b) (timestamp a)) filteredLogs.

Definition MASKED : string := "***MASKED***".

Definition sensitiveKeys : list string :=
  ["grantkey"; "password"; "secret"; "token"; "key"; "authorization"].

Definition isSensitive (key : string) : bool :=
  let lowerKey := Str.toLowerCase key in
  existsb (fun sensitiveKey => Str.includes lowerKey sensitiveKey) sensitiveKeys.

(** [maskSecrets(obj)]. The result object is built by assignments
    [masked[key] = ...]; assigning to the name [__proto__] reaches the
    inherited setter and creates no own property. *)
Fixpoint maskSecrets (obj : json) : json :=
  match obj with
  | JArr items => JArr (map maskSecrets items)
  | JObj fields =>
      JObj (flat_map
              (fun kv : string * json =>
                 if String.eqb kv.1 "__proto__" then []
                 else if isSensitive kv.1 then [(kv.1, JStr MASKED)]
                 else match kv.2 with
                      | JArr _ | JObj _ => [(kv.1, maskSecrets kv.2)]
                      | _ => [kv]
                      end) fields)
  | _ => obj
  end.

End Logs.

(** ** node:crypto and Buffer

    [crypto.createHmac('sha256', key).update(data).digest()] is HMAC
    (RFC 2104) over SHA-256 (FIPS 180-4); 32-bit words are [Z] with the
    wrap-around written out. *)

Module Crypto.

Definition Buffer : Type := list byte.

Global Instance byte_eq_decision : EqDecision byte := Byte.byte_eq_dec.

Definition wrap (x : Z) : Z := x mod 2 ^ 32.
Definition add32 (x y : Z) : Z := wrap (x + y).
Definition not32 (x : Z) : Z := Z.lxor x 0xffffffff.
Definition rotr (n x : Z) : Z :=
  Z.lor (Z.shiftr x n) (wrap (Z.shiftl x (32 - n))).
Definition shr (n x : Z) : Z := Z.shiftr x n.

Definition Ch (x y z : Z) : Z := Z.lxor (Z.land x y) (Z.land (not32 x) z).
Definition Maj (x y z : Z) : Z :=
  Z.lxor (Z.lxor (Z.land x y) (Z.land x z)) (Z.land y z).
Definition Sigma0 (x : Z) : Z := Z.lxor (Z.lxor (rotr 2 x) (rotr 13 x)) (rotr 22 x).
Definition Sigma1 (x : Z) : Z := Z.lxor (Z.lxor (rotr 6 x) (rotr 11 x)) (rotr 25 x).
Definition sigma0 (x : Z) : Z := Z.lxor (Z.lxor (rotr 7 x) (rotr 18 x)) (shr 3 x).
Definition sigma1 (x : Z) : Z := Z.lxor (Z.lxor (rotr 17 x) (rotr 19 x)) (shr 10 x).

(** The constants of FIPS 180-4 are the first 32 bits of the fractional
    parts of the cube roots (for [K]) and of the square roots (for [H0]) of
    the first primes. *)
Definition isPrime (n : nat) : bool :=
  forallb (fun d => negb (n mod d =? 0)%nat) (seq 2 (n - 2)).

Definition firstPrimes (count : nat) : list Z :=
  Z.of_nat <$> take count (List.filter isPrime (seq 2 310)).

(** The integer cube root of a number below [2^108], bit by bit. *)
Definition cubeRoot (n : Z) : Z :=
  fold_left
    (fun r bit => let r' := r + 2 ^ Z.of_nat bit in
                  if r' * r' * r' <=? n then r' else r)
    (rev (seq 0 36)) 0.

Definition K : list Z :=
  Eval vm_compute in (fun p => wrap (cubeRoot (p * 2 ^ 96))) <$> firstPrimes 64.

(** The eight working variables / the hash value. *)
Record Hash := {
  ha : Z; hb : Z; hc : Z; hd : Z; he : Z; hf : Z; hg : Z; hh : Z
}.

Definition rootBits (k : nat) : Z :=
  wrap (Z.sqrt (default 0 (firstPrimes 8 !! k) * 2 ^ 64)).

Definition H0 : Hash :=
  Eval vm_compute in
    {| ha := rootBits 0; hb := rootBits 1; hc := rootBits 2; hd := rootBits 3;
       he := rootBits 4; hf := rootBits 5; hg := rootBits 6; hh := rootBits 7 |}.

(** Big-endian words of a block of bytes. *)
Fixpoint wordsOf (bytes : list Z) : list Z :=
  match bytes with
  | b3 :: b2 :: b1 :: b0 :: rest =>
      (b3 * 2 ^ 24 + b2 * 2 ^ 16 + b1 * 2 ^ 8 + b0) :: wordsOf rest
  | _ => []
  end.

(** The message schedule, latest word first: [n] more words after [w]. *)
Fixpoint schedule (n : nat) (w : list Z) : list Z :=
  match n with
  | O => w
  | S n' =>
      let at_ (k : nat) := default 0 (w !! k) in
      schedule n'
        (add32 (add32 (sigma1 (at_ 1%nat)) (at_ 6%nat))
               (add32 (sigma0 (at_ 14%nat)) (at_ 15%nat)) :: w)
  end.

Definition round (s : Hash) (kw : Z * Z) : Hash :=
  let t1 := add32 (add32 (add32 (hh s) (Sigma1 (he s)))
                         (add32 (Ch (he s) (hf s) (hg s)) kw.1)) kw.2 in
  let t2 := add32 (Sigma0 (ha s)) (Maj (ha s) (hb s) (hc s)) in
  {| ha := add32 t1 t2; hb := ha s; hc := hb s; hd := hc s;
     he := add32 (hd s) t1; hf := he s; hg := hf s; hh := hg s |}.

Definition compress (h : Hash) (block : list Z) : Hash :=
  let w := rev (schedule 48 (rev (wordsOf block))) in
  let s := fold_left round (zip K w) h in
  {| ha := add32 (ha h) (ha s); hb := add32 (hb h) (hb s);
     hc := add32 (hc h) (hc s); hd := add32 (hd h) (hd s);
     he := add32 (he h) (he s); hf := add32 (hf h) (hf s);
     hg := add32 (hg h) (hg s); hh := add32 (hh h) (hh s) |}.

(** One more byte of the padded message; [pending] is the current block,
    latest byte first. *)
Definition absorb (st : Hash * list Z) (b : Z) : Hash * list Z :=
  let pending := b :: st.2 in
  if (length pending =? 64)%nat then (compress st.1 (rev pending), [])
  else (st.1, pending).

Definition bigEndian (width : nat) (x : Z) : list Z :=
  rev (map (fun k : nat => Z.shiftr x (8 * Z.of_nat k) mod 256) (seq 0 width)).

Definition padding (len : Z) : list Z :=
  0x80 :: replicate (Z.to_nat ((55 - len) mod 64)) 0 ++ bigEndian 8 (8 * len).

Definition byteOfZ (x : Z) : byte :=
  byte_of_ascii (ascii_of_N (Z.to_N (x mod 256))).
Definition ZOfByte (b : byte) : Z := Z.of_N (Byte.to_N b).

Definition wordBytes (x : Z) : Buffer :=
  [byteOfZ (Z.shiftr x 24); byteOfZ (Z.shiftr x 16);
   byteOfZ (Z.shiftr x 8); byteOfZ x].

Definition digestOf (h : Hash) : Buffer :=
  wordBytes (ha h) ++ wordBytes (hb h) ++ wordBytes (hc h) ++ wordBytes (hd h)
  ++ wordBytes (he h) ++ wordBytes (hf h) ++ wordBytes (hg h) ++ wordBytes (hh h).

Definition sha256 (message : Buffer) : Buffer :=
  let bytes := map ZOfByte message in
  let padded := bytes ++ padding (Z.of_nat (length bytes)) in
  digestOf (fold_left absorb padded (H0, [])).1.

Definition xorWith (pad : Z) (key : Buffer) : Buffer :=
  map (fun b => byteOfZ (Z.lxor (ZOfByte b) pad)) key.

Definition hmacSha256 (key message : Buffer) : Buffer :=
  let key := if (64 <? length key)%nat then sha256 key else key in
  let key := key ++ replicate (64 - length key)%nat (byteOfZ 0) in
  sha256 (xorWith 0x5c key ++ sha256 (xorWith 0x36 key ++ message)).

(** [Buffer.from(s, 'utf8')]: the bytes of the string *)
Definition utf8 (s : string) : Buffer := list_byte_of_string s.

Definition hexDigit (n : Z) : ascii :=
  ascii_of_N (Z.to_N (if n <? 10 then 48 + n else 87 + n)).

(** [buffer.toString('hex')] *)
Fixpoint toHex (b : Buffer) : string :=
  match b with
  | [] => EmptyString
  | x :: b' =>
      String (hexDigit (ZOfByte x / 16))
        (String (hexDigit (ZOfByte x mod 16)) (toHex b'))
  end.

Definition unhex (c : ascii) : option Z :=
  let n := Z.of_N (N_of_ascii c) in
  if (48 <=? n) && (n <=? 57) then Some (n - 48)
  else if (97 <=? n) && (n <=? 102) then Some (n - 87)
  else if (65 <=? n) && (n <=? 70) then Some (n - 55)
  else None.

(** [Buffer.from(s, 'hex')]: pairs of hexadecimal digits of either case
    are decoded; decoding stops at the first pair that is not one, and a
    trailing single character is dropped. No input makes it throw. *)
Fixpoint fromHex (s : string) : Buffer :=
  match s with
  | String c1 (String c2 s') =>
      match unhex c1, unhex c2 with
      | Some hi, Some lo => byteOfZ (16 * hi + lo) :: fromHex s'
      | _, _ => []
      end
  | _ => []
  end.

(** [crypto.timingSafeEqual(a, b)] throws for buffers of different
    lengths. *)
Definition timingSafeEqual (a b : Buffer) : Result bool :=
  if (length a =? length b)%nat then Ok (bool_decide (a = b))
  else Throw "Input buffers must have the same byte length".

End Crypto.

(** ** The process environment ([process.env]) *)

Record Env := {
  HMAC_SECRET : option string;
  GATEWAY_KEY_DB : option string;
  GATEWAY_KEY_CI : option string;
  JT_GRANT_KEY_DB : option string;
  JT_GRANT_KEY_CI : option string;
  ALLOW_HOSTS : option string;
  LOG_RETENTION_DAYS : option string
}.

(** ** src/lib/auth.ts *)

Module Auth.

Definition verifyHmacSignature (body signature secret : string) : bool :=
  if negb (Str.truthy signature) || negb (Str.startsWith signature "sha256=")
  then false
  else
    let providedSignature := Str.slice 7 signature in
    let expectedSignature :=
      Crypto.toHex (Crypto.hmacSha256 (Crypto.utf8 secret) (Crypto.utf8 body)) in
    let tried : Result bool :=
      let providedBuffer := Crypto.fromHex providedSignature in
      let expectedBuffer := Crypto.fromHex expectedSignature in
      if negb (length providedBuffer =? length expectedBuffer)%nat then Ok false
      else Crypto.timingSafeEqual providedBuffer expectedBuffer in
    match tried with
    | Ok b => b
    | Throw _ => false
    end.

Definition getBrandFromGatewayKey (env : Env) (key : string)
    : Result (option Brand) :=
  match present (GATEWAY_KEY_DB env), present (GATEWAY_KEY_CI env) with
  | Some keyDB, Some keyCI =>
      if String.eqb key keyDB then Ok (Some DB)
      else if String.eqb key keyCI then Ok (Some CI)
      else Ok None
  | _, _ => Throw "Gateway keys not configured in environment variables"
  end.

Definition brandName (brand : Brand) : string :=
  match brand with DB => "DB" | CI => "CI" end.

Definition getGrantKeyForBrand (env : Env) (brand : Brand) : Result string :=
  match present (match brand with
                 | DB => JT_GRANT_KEY_DB env
                 | CI => JT_GRANT_KEY_CI env
                 end) with
  | Some grantKey => Ok grantKey
  | None =>
      Throw ("JobTread grant key not configured for brand: " +:+ brandName brand)
  end.

End Auth.

(** ** What a request does to the outside, in order *)

Inductive Method := GET | POST | PUT | PATCH | DELETE.

Inductive Event :=
| EvValidateParams (action : string)
| EvCacheHas (key : string)
| EvCacheGet (key : string)
| EvCacheSet (key : string)
| EvExecute (action : string)
| EvRequest (url : string) (method : Method) (headers : list (string * string))
    (body : option string) (timeout : Z)
| EvSleep (milliseconds : Z)
| EvAddLog (status : Status).

(** What the network does with one attempt of an outbound call: it
    delivers a response, or the call fails (connection, time-out, body
    read). *)
Record Delivered := {
  statusCode : Z;
  deliveredHeaders : list (string * string);
  bodyText : string
}.

Inductive Attempt :=
| Responded (r : Delivered)
| Failed (message : string).

(** ** src/lib/http.ts *)

Module Http.

Record HttpRequestOptions := {
  url : string;
  method : Method;
  headers : option (list (string * string));
  body : option json;
  timeout : option Z;
  maxRetries : option Z
}.

Record HttpResponse := {
  status : Z;
  responseHeaders : list (string * string);
  data : json
}.

(** [if (body)]: the falsy values are [null], [false], [0] and [""] *)
Definition truthy (v : json) : bool :=
  match v with
  | JNull => false
  | JBool b => b
  | JNum n => negb (n =? 0)
  | JStr s => Str.truthy s
  | JArr _ | JObj _ => true
  end.

(** The body and the headers that go on the wire. *)
Definition prepare (rt : Runtime) (headers : list (string * string))
    (body : option json) : option string * list (string * string) :=
  match body with
  | Some b =>
      if truthy b then
        match b with
        | JStr text => (Some text, headers)
        | _ =>
            (Some (json_stringify rt b),
             match present (assoc "content-type" headers) with
             | Some _ => headers
             | None => setKey "content-type" "application/json" headers
             end)
        end
      else (None, headers)
  | None => (None, headers)
  end.

(** [data = responseText ? JSON.parse(responseText) : null], the raw text
    when parsing throws *)
Definition parseData (rt : Runtime) (responseText : string) : json :=
  if Str.truthy responseText
  then default (JStr responseText) (json_parse rt responseText)
  else JNull.

Section Loop.
Context (rt : Runtime) (network : Z → Attempt).
Context (url : string) (method : Method) (headers : list (string * string))
        (body : option json) (timeout maxRetries : Z).

Definition sent : Event :=
  let p := prepare rt headers body in EvRequest url method p.2 p.1 timeout.

(** The [while (attempt <= maxRetries)] loop and the [throw] after it. *)
Equations? loop (attempt : Z) (lastError : option string)
    : Result HttpResponse * list Event
    by wf (Z.to_nat (maxRetries + 1 - attempt)) lt :=
  loop attempt lastError with decide (attempt ≤ maxRetries) => {
    | right _ => (Throw (default "HTTP request failed" lastError), []);
    | left _ with network attempt => {
        | Responded r =>
            (Ok {| status := statusCode r;
                   responseHeaders := deliveredHeaders r;
                   data := parseData rt (bodyText r) |}, [sent]);
        | Failed message with decide (maxRetries < attempt + 1) => {
            | left _ =>
                (Throw ("HTTP request failed after " +:+ pretty (maxRetries + 1)
                        +:+ " attempts: " +:+ message), [sent]);
            | right _ =>
                let delay := 2 ^ (attempt + 1 - 1) * 1000 in
                let rest := loop (attempt + 1) (Some message) in
                (rest.1, sent :: EvSleep delay :: rest.2) } } }.
Proof. lia. Qed.

End Loop.

Definition httpRequest (rt : Runtime) (network : Z → Attempt)
    (options : HttpRequestOptions) : Result HttpResponse * list Event :=
  loop rt network (url options) (method options)
    (default [] (headers options)) (body options)
    (default 20000 (timeout options)) (default 2 (maxRetries options))
    0 None.

End Http.

(** ** The action executors (src/actions) *)

(** What an executor returns: [{ result, notes }]. *)
Record Executed := {
  result : json;
  notes : list string
}.

Module Actions.

Record JobTreadQueryParams := { pave : json }.
Record JobTreadPushJobToQboParams := { jobId : string }.
Record MakeTriggerParams := { webhookUrl : string; payload : json }.

(** src/actions/echo.ts *)
Definition executeEcho (rt : Runtime) (now : Z) (params : json)
    (traceId : string) : json :=
  JObj [("echo", params); ("traceId", JStr traceId);
        ("timestamp", JStr (iso_of_time rt now))].

Definition jsonHeaders : list (string * string) :=
  [("content-type", "application/json")].

Definition paveWrapper (grantKey : string) : list (string * json) :=
  [("version", JObj []);
   ("$", JObj [("grantKey", JStr grantKey);
                ("timeZone", JStr "America/Chicago")]);
   ("currentGrant", JObj [("_type", JObj []); ("id", JObj [])])].

(** src/actions/jobtread.query.ts *)
Definition executeJobTreadQuery (rt : Runtime) (network : Z → Attempt)
    (params : JobTreadQueryParams) (brand : Brand) (grantKey : string)
    (mode : Mode) : Result Executed * list Event :=
  match Lint.lintJobTreadQuery (pave params) with
  | Throw m => (Throw m, [])
  | Ok lint =>
      if negb (Lint.valid lint) then
        (Throw ("JobTread query validation failed:" +:+ String "010" ""
                +:+ Str.join (String "010" "") (Lint.errors lint)), [])
      else
        match mode with
        | dry_run =>
            (Ok {| result := JStr "Dry run: Query validated successfully. Would execute against JobTread API.";
                   notes := Lint.notes lint |}, [])
        | execute =>
            let paveBody := JObj (spread (paveWrapper grantKey) (pave params)) in
            let sent :=
              Http.httpRequest rt network
                {| Http.url := "https://api.jobtread.com/pave";
                   Http.method := POST;
                   Http.headers := Some jsonHeaders;
                   Http.body := Some paveBody;
                   Http.timeout := Some 20000;
                   Http.maxRetries := Some 2 |} in
            match sent.1 with
            | Ok response =>
                (Ok {| result := Http.data response; notes := Lint.notes lint |},
                 sent.2)
            | Throw errorMessage =>
                (Throw ("JobTread query failed: " +:+ errorMessage), sent.2)
            end
        end
  end.

(** src/actions/jobtread.pushJobToQbo.ts *)
Definition executeJobTreadPushJobToQbo (rt : Runtime) (network : Z → Attempt)
    (params : JobTreadPushJobToQboParams) (brand : Brand) (grantKey : string)
    (mode : Mode) : Result Executed * list Event :=
  match mode with
  | dry_run =>
      (Ok {| result := JStr ("Dry run: Would push job " +:+ jobId params
                             +:+ " to QuickBooks Online via JobTread API.");
             notes := ["This is a side-effect action - idempotency is enforced by the server"] |},
       [])
  | execute =>
      let target := JObj [("id", JStr (jobId params))] in
      let paveBody :=
        JObj (paveWrapper grantKey ++
              [("pushJobToQbo",
                JObj [("_type", JObj []); ("$", target);
                      ("job", JObj [("_type", JObj []); ("$", target);
                                    ("id", JObj []); ("qboId", JObj [])])])]) in
      let sent :=
        Http.httpRequest rt network
          {| Http.url := "https://api.jobtread.com/pave";
             Http.method := POST;
             Http.headers := Some jsonHeaders;
             Http.body := Some paveBody;
             Http.timeout := Some 20000;
             Http.maxRetries := Some 2 |} in
      match sent.1 with
      | Ok response =>
          (Ok {| result := Http.data response;
                 notes := ["Job " +:+ jobId params
                           +:+ " pushed to QuickBooks Online successfully"] |},
           sent.2)
      | Throw errorMessage =>
          (Throw ("Failed to push job to QuickBooks: " +:+ errorMessage), sent.2)
      end
  end.

(** src/actions/make.trigger.ts *)
Definition executeMakeTrigger (rt : Runtime) (env : Env) (network : Z → Attempt)
    (params : MakeTriggerParams) (mode : Mode) : Result Executed * list Event :=
  match Allowlist.isHostAllowed rt (ALLOW_HOSTS env) (webhookUrl params) with
  | Throw m => (Throw m, [])
  | Ok false =>
      (Throw ("Webhook URL host not allowed: " +:+ webhookUrl params +:+ ". "
              +:+ "Host must be in ALLOW_HOSTS environment variable."), [])
  | Ok true =>
      match mode with
      | dry_run =>
          (Ok {| result := JStr ("Dry run: Would POST payload to Make.com webhook: "
                                 +:+ webhookUrl params);
                 notes := ["Webhook URL validated against ALLOW_HOSTS"] |}, [])
      | execute =>
          let sent :=
            Http.httpRequest rt network
              {| Http.url := webhookUrl params;
                 Http.method := POST;
                 Http.headers := Some jsonHeaders;
                 Http.body := Some (payload params);
                 Http.timeout := Some 20000;
                 Http.maxRetries := Some 2 |} in
          match sent.1 with
          | Ok response =>
              (Ok {| result := Http.data response;
                     notes := ["Make.com webhook triggered successfully"] |},
               sent.2)
          | Throw errorMessage =>
              (Throw ("Failed to trigger Make.com webhook: " +:+ errorMessage),
               sent.2)
          end
      end
  end.

End Actions.

(** ** src/server.ts: the action-execution endpoint *)

Module Server.

(** [interface ActionEnvelope], the type at which the handler reads a
    body that the envelope schema accepted. *)
Record ActionEnvelope := {
  action : string;
  mode : Mode;
  idempotencyKey : string;
  params : json
}.

(** The validators compiled from src/schemas/*.json (the schema files are
    data the handler loads at start-up). A validator gives the list of
    violations ([validate.errors]) or accepts the value, which the handler
    then reads at its TypeScript type. *)
Record Schemas := {
  validateEnvelope : json → list json + ActionEnvelope;
  validateJobTreadQuery : json → list json + Actions.JobTreadQueryParams;
  validateJobTreadPushJobToQbo :
    json → list json + Actions.JobTreadPushJobToQboParams;
  validateMakeTrigger : json → list json + Actions.MakeTriggerParams
}.

(** The inbound request as the transport hands it over. *)
Record Request := {
  rawBody : option string;
  x_gateway_key : option string;
  x_signature : option string;
  body : json
}.

(** The JSON bodies the endpoint answers with:
    [{ ok: true, traceId, result, notes }] and
    [{ ok: false, traceId?, error, details? }]. *)
Inductive Response :=
| Success (traceId : string) (result : json) (notes : list string)
| Failure (traceId : option string) (error : string)
    (details : option (list json)).


(** How the handler ends: it replies with a status code and a body, or
    an exception leaves it. *)
Inductive Outcome :=
| Replied (code : Z) (payload : Response)
| Rejected (message : string).

(** The two process-lifetime stores. *)
Record Store := {
  idempotencyCache : gmap string Response;
  logs : list Logs.LogEntry
}.

(** What one request reads from the outside: the value [uuidv4()]
    returns, the clock at each place that reads it, and the network.
    [clock 0] is read at the start of the handler, [clock 1] by the echo
    executor, [clock 2] and [clock 3] for the duration and the timestamp
    of the success entry, [clock 4] by the clean-up of that append, and
    [clock 5], [clock 6], [clock 7] for the same three in the [catch]
    block. *)
Record Oracle := {
  uuid : string;
  clock : nat → Z;
  network : Z → Attempt
}.

Record Run := {
  store : Store;
  outcome : Outcome;
  events : list Event
}.

(** Step 6: the validator of the action, applied to [envelope.params]. *)
Inductive Validated :=
| ForEcho (params : json)
| ForJobTreadQuery (params : Actions.JobTreadQueryParams)
| ForJobTreadPushJobToQbo (params : Actions.JobTreadPushJobToQboParams)
| ForMakeTrigger (params : Actions.MakeTriggerParams).

Inductive ParamsCheck :=
| UnknownAction
| InvalidParams (errors : list json)
| ValidParams (v : Validated).

Definition checked {A} (wrap : A → Validated) (r : list json + A) : ParamsCheck :=
  match r with
  | inl errors => InvalidParams errors
  | inr p => ValidParams (wrap p)
  end.

Definition validateParams (sc : Schemas) (action : string) (params : json)
    : ParamsCheck * list Event :=
  if String.eqb action "echo" then (ValidParams (ForEcho params), [])
  else if String.eqb action "jobtread.query" then
    (checked ForJobTreadQuery (validateJobTreadQuery sc params),
     [EvValidateParams action])
  else if String.eqb action "jobtread.pushJobToQbo" then
    (checked ForJobTreadPushJobToQbo (validateJobTreadPushJobToQbo sc params),
     [EvValidateParams action])
  else if String.eqb action "make.trigger" then
    (checked ForMakeTrigger (validateMakeTrigger sc params),
     [EvValidateParams action])
  else (UnknownAction, []).

(** Step 10: the executor of the action. *)
Definition dispatch (rt : Runtime) (env : Env) (o : Oracle) (v : Validated)
    (traceId : string) (brand : Brand) (grantKey : option string) (mode : Mode)
    : Result Executed * list Event :=
  match v with
  | ForEcho params =>
      (Ok {| result := Actions.executeEcho rt (clock o 1) params traceId;
             notes := [] |}, [])
  | ForJobTreadQuery params =>
      Actions.executeJobTreadQuery rt (network o) params brand
        (default "" grantKey) mode
  | ForJobTreadPushJobToQbo params =>
      Actions.executeJobTreadPushJobToQbo rt (network o) params brand
        (default "" grantKey) mode
  | ForMakeTrigger params =>
      Actions.executeMakeTrigger rt env (network o) params mode
  end.

(** The variables the [catch] block reads: either none of [traceId],
    [brand], [action], [mode] is assigned yet, or all are. *)
Definition Assigned : Type := string * Brand * string * Mode.

Definition entryOf (rt : Runtime) (at_ : Z) (a : Assigned) (status : Status)
    (duration : Z) (notes : list string) (error : option string)
    : Logs.LogEntry :=
  {| Logs.timestamp := iso_of_time rt at_;
     Logs.traceId := a.1.1.1;
     Logs.brand := a.1.1.2;
     Logs.action := a.1.2;
     Logs.mode := a.2;
     Logs.status := status;
     Logs.duration := duration;
     Logs.notes := notes;
     Logs.error := error;
     Logs.extra := [] |}.

(** The [catch] block. *)
Definition caught (rt : Runtime) (env : Env) (o : Oracle) (st : Store)
    (evs : list Event) (assigned : option Assigned) (errorMessage : string)
    : Run :=
  let duration := clock o 5 - clock o 0 in
  let traceId :=
    match assigned with
    | Some a => a.1.1.1
    | None => uuid o
    end in
  let reply := Replied 500 (Failure (Some traceId) errorMessage None) in
  match assigned with
  | Some a =>
      if Str.truthy a.1.2 then
        let logged :=
          Logs.addLog rt (LOG_RETENTION_DAYS env) (clock o 7)
            (entryOf rt (clock o 6) a error duration [] (Some errorMessage))
            (logs st) in
        let st' := {| idempotencyCache := idempotencyCache st;
                      logs := logged.1 |} in
        match logged.2 with
        | Ok _ => {| store := st'; outcome := reply;
                     events := evs ++ [EvAddLog error] |}
        | Throw m => {| store := st'; outcome := Rejected m;
                        events := evs ++ [EvAddLog error] |}
        end
      else {| store := st; outcome := reply; events := evs |}
  | None => {| store := st; outcome := reply; events := evs |}
  end.

Definition replied (st : Store) (evs : list Event) (code : Z) (r : Response)
    : Run :=
  {| store := st; outcome := Replied code r; events := evs |}.

(** [`${action}:${brand}:${envelope.idempotencyKey}`] *)
Definition cacheKey (brand : Brand) (envelope : ActionEnvelope) : string :=
  action envelope +:+ ":" +:+ Auth.brandName brand +:+ ":"
  +:+ idempotencyKey envelope.

(** Step 8: [if (action.startsWith('jobtread.')) grantKey = getGrantKeyForBrand(brand)] *)
Definition grantKeyFor (env : Env) (brand : Brand) (action : string)
    : Result (option string) :=
  if Str.startsWith action "jobtread."
  then (g ← Auth.getGrantKeyForBrand env brand; Ok (Some g))
  else Ok None.

(** Steps 1 to 6: authentication, envelope validation, params validation.
    The request is answered at once, or it is accepted with its tenant,
    its envelope and its validated params. *)
Definition intake (rt : Runtime) (sc : Schemas) (env : Env) (o : Oracle)
    (st : Store) (request : Request)
    : Run + (Brand * ActionEnvelope * Validated * list Event) :=
  match present (rawBody request) with
  | None => inl (replied st [] 400 (Failure None "Request body is required" None))
  | Some rawBody =>
  match present (x_gateway_key request) with
  | None =>
      inl (replied st [] 401
             (Failure None "x-gateway-key header is required" None))
  | Some gatewayKey =>
  match present (x_signature request) with
  | None =>
      inl (replied st [] 401
             (Failure None "X-Signature header is required" None))
  | Some signature =>
  match present (HMAC_SECRET env) with
  | None => inl (caught rt env o st [] None "HMAC_SECRET not configured")
  | Some hmacSecret =>
  if negb (Auth.verifyHmacSignature rawBody signature hmacSecret)
  then inl (replied st [] 401 (Failure None "Invalid HMAC signature" None))
  else
  match Auth.getBrandFromGatewayKey env gatewayKey with
  | Throw m => inl (caught rt env o st [] None m)
  | Ok None => inl (replied st [] 401 (Failure None "Invalid gateway key" None))
  | Ok (Some brand) =>
  match validateEnvelope sc (body request) with
  | inl errors =>
      inl (replied st [] 422
             (Failure None "Invalid request format" (Some errors)))
  | inr envelope =>
  let checkedParams := validateParams sc (action envelope) (params envelope) in
  match checkedParams.1 with
  | UnknownAction =>
      inl (replied st checkedParams.2 422
             (Failure None ("Unknown action: " +:+ action envelope) None))
  | InvalidParams errors =>
      inl (replied st checkedParams.2 422
             (Failure None "Invalid parameters for action" (Some errors)))
  | ValidParams v => inr (brand, envelope, v, checkedParams.2)
  end end end end end end end.

(** Steps 7 to 12, for an accepted request. [traceId] was assigned at
    step 5. *)
Definition execute_accepted (rt : Runtime) (env : Env) (o : Oracle)
    (st : Store) (brand : Brand) (envelope : ActionEnvelope) (v : Validated)
    (evs : list Event) : Run :=
  let traceId := uuid o in
  let assigned : Assigned := (traceId, brand, action envelope, mode envelope) in
  let key := cacheKey brand envelope in
  (* [mode === 'execute' && idempotencyCache.has(key)] *)
  let hit :=
    match mode envelope with
    | execute => (idempotencyCache st !! key, [EvCacheHas key])
    | dry_run => (None, [])
    end in
  match hit.1 with
  | Some cachedResult =>
      replied st (evs ++ hit.2 ++ [EvCacheGet key]) 200 cachedResult
  | None =>
      let evs := evs ++ hit.2 in
      match grantKeyFor env brand (action envelope) with
      | Throw m => caught rt env o st evs (Some assigned) m
      | Ok grantKey =>
          let ran := dispatch rt env o v traceId brand grantKey (mode envelope) in
          let evs := evs ++ [EvExecute (action envelope)] ++ ran.2 in
          match ran.1 with
          | Throw m => caught rt env o st evs (Some assigned) m
          | Ok done =>
              let duration := clock o 2 - clock o 0 in
              let logged :=
                Logs.addLog rt (LOG_RETENTION_DAYS env) (clock o 4)
                  (entryOf rt (clock o 3) assigned success duration
                     (notes done) None)
                  (logs st) in
              let st := {| idempotencyCache := idempotencyCache st;
                           logs := logged.1 |} in
              let evs := evs ++ [EvAddLog success] in
              match logged.2 with
              | Throw m => caught rt env o st evs (Some assigned) m
              | Ok _ =>
                  let response := Success traceId (result done) (notes done) in
                  match mode envelope with
                  | execute =>
                      replied
                        {| idempotencyCache :=
                             <[key := response]> (idempotencyCache st);
                           logs := logs st |}
                        (evs ++ [EvCacheSet key]) 200 response
                  | dry_run => replied st evs 200 response
                  end
              end
          end
      end
  end.

(** [fastify.post('/v1/actions/execute', ...)] *)
Definition handler (rt : Runtime) (sc : Schemas) (env : Env) (o : Oracle)
    (st : Store) (request : Request) : Run :=
  match intake rt sc env o st request with
  | inl answered => answered
  | inr (brand, envelope, v, evs) =>
      execute_accepted rt env o st brand envelope v evs
  end.

End Server.

(** ** Vocabulary of the specification *)

(** An entry that the clean-up keeps: its timestamp is not below the
    cutoff in the order of [<] on strings. *)
Definition kept (cutoff : string) (e : Logs.LogEntry) : Prop :=
  Str.lt (Logs.timestamp e) cutoff = false.

Global Instance kept_dec cutoff e : Decision (kept cutoff e).
Proof. unfold kept. apply _. Defined.

Definition brandJson (b : Brand) : json := JStr (Auth.brandName b).

Definition modeJson (m : Mode) : json :=
  JStr match m with dry_run => "dry_run" | execute => "execute" end.

Definition statusJson (s : Status) : json :=
  JStr match s with
       | success => "success"
       | error => "error"
       | warning => "warning"
       end.

(** The object a log entry is: its declared properties, then any other. *)
Definition asObject (e : Logs.LogEntry) : json :=
  JObj ([("timestamp", JStr (Logs.timestamp e));
         ("traceId", JStr (Logs.traceId e));
         ("brand", brandJson (Logs.brand e));
         ("action", JStr (Logs.action e));
         ("mode", modeJson (Logs.mode e));
         ("status", statusJson (Logs.status e));
         ("duration", JNum (Logs.duration e));
         ("notes", JArr (JStr <$> Logs.notes e))]
        ++ match Logs.error e with
           | Some message => [("error", JStr message)]
           | None => []
           end
        ++ Logs.extra e).

Definition isMarker (v : json) : bool :=
  match v with
  | JStr s => String.eqb s Logs.MASKED
  | _ => false
  end.

(** A value is redacted when every property, at any depth and also inside
    arrays, whose name contains a sensitivity marker (in any case) has the
    redaction marker as its value. *)
Fixpoint redacted (v : json) : bool :=
  match v with
  | JArr items => forallb redacted items
  | JObj fields =>
      forallb (fun kv : string * json =>
                 if Logs.isSensitive kv.1 then isMarker kv.2 else redacted kv.2)
        fields
  | _ => true
  end.

(** [inner] occurs in [outer]: it is [outer] itself, or it occurs in an
    element or in the value of a property of [outer]. *)
Inductive occursIn (inner : json) : json → Prop :=
| occurs_here : occursIn inner inner
| occurs_item items item :
    item ∈ items → occursIn inner item → occursIn inner (JArr items)
| occurs_property fields key value :
    (key, value) ∈ fields → occursIn inner value → occursIn inner (JObj fields).


(** No object in [v] has an own property named [hasOwnProperty]. *)
Definition plainObjects (v : json) : Prop :=
  ∀ fields, occursIn (JObj fields) v → hasKey "hasOwnProperty" fields = false.

(** The header a caller sends for [body] under [secret]. *)
Definition signatureFor (body secret : string) : string :=
  "sha256=" +:+ Crypto.toHex (Crypto.hmacSha256 (Crypto.utf8 secret) (Crypto.utf8 body)).

(** A single-bit mutation of a string: bit [bit] of the character at
    [position] is flipped. *)
Definition flipAscii (bit : nat) (c : ascii) : ascii :=
  ascii_of_N (N.lxor (N_of_ascii c) (2 ^ N.of_nat bit)).

Fixpoint flipBit (position bit : nat) (s : string) : string :=
  match s, position with
  | EmptyString, _ => EmptyString
  | String c s', O => String (flipAscii bit c) s'
  | String c s', S p => String c (flipBit p bit s')
  end.

(** The character at [position], when it is not a hexadecimal digit. *)
Definition notHexAt (position : nat) (s : string) : Prop :=
  ∃ c, String.get position s = Some c ∧ Crypto.unhex c = None.

(** The outbound calls made, and the pauses taken, in a run. *)
Definition isRequest (e : Event) : bool :=
  match e with EvRequest _ _ _ _ _ => true | _ => false end.

Definition requestsIn (evs : list Event) : nat :=
  length (List.filter isRequest evs).

Definition sleepsIn (evs : list Event) : list Z :=
  omap (fun e => match e with EvSleep ms => Some ms | _ => None end) evs.

(** The back-off before retry number [attempt]: [2^(attempt-1)] seconds. *)
Definition backoffDelay (attempt : Z) : Z := 2 ^ (attempt - 1) * 1000.

(** The pauses before the retries [first + 1 .. first + count]. *)
Definition backoffFrom (first : Z) (count : nat) : list Z :=
  (fun k : nat => backoffDelay (first + 1 + Z.of_nat k)) <$> seq 0 count.

(** A stored response is a success response ([{ ok: true, ... }]). *)
Definition isSuccess (r : Server.Response) : Prop :=
  ∃ traceId result notes, r = Server.Success traceId result notes.

Definition cacheWellFormed (cache : gmap string Server.Response) : Prop :=
  ∀ key r, cache !! key = Some r → isSuccess r.

(** Events that read or write the idempotency cache. *)
Definition touchesCache (e : Event) : bool :=
  match e with
  | EvCacheHas _ | EvCacheGet _ | EvCacheSet _ => true
  | _ => false
  end.

(** Events of the work a stored response spares: the executor, outbound
    calls and their pauses, the audit log, the cache write. *)
Definition isWork (e : Event) : bool :=
  match e with
  | EvExecute _ | EvRequest _ _ _ _ _ | EvSleep _ | EvAddLog _ | EvCacheSet _ => true
  | _ => false
  end.

(** Events of the network: an outbound call or a pause between calls. *)
Definition isNetwork (e : Event) : bool :=
  match e with
  | EvRequest _ _ _ _ _ | EvSleep _ => true
  | _ => false
  end.

(** [plainObjects], decided. *)
Fixpoint plainObjectsb (v : json) : bool :=
  match v with
  | JArr items => forallb plainObjectsb items
  | JObj fields =>
      negb (hasKey "hasOwnProperty" fields)
      && forallb (fun kv : string * json => plainObjectsb kv.2) fields
  | _ => true
  end.

(** ** JSON values: induction *)

Section json_induction.
Variable P : json → Prop.
Hypothesis Hnull : P JNull.
Hypothesis Hbool : ∀ b, P (JBool b).
Hypothesis Hnum : ∀ n, P (JNum n).
Hypothesis Hstr : ∀ s, P (JStr s).
Hypothesis Harr : ∀ items, Forall P items → P (JArr items).
Hypothesis Hobj : ∀ fields, Forall (fun kv => P kv.2) fields → P (JObj fields).

Fixpoint json_nested_ind (v : json) : P v :=
  match v with
  | JNull => Hnull
  | JBool b => Hbool b
  | JNum n => Hnum n
  | JStr s => Hstr s
  | JArr items =>
      Harr items
        ((fix all (l : list json) : Forall P l :=
            match l with
            | [] => List.Forall_nil P
            | x :: l' => List.Forall_cons P x l' (json_nested_ind x) (all l')
            end) items)
  | JObj fields =>
      Hobj fields
        ((fix all (l : list (string * json)) : Forall (fun kv => P kv.2) l :=
            match l with
            | [] => List.Forall_nil _
            | kv :: l' =>
                List.Forall_cons (fun kv => P kv.2) kv l'
                  (json_nested_ind kv.2) (all l')
            end) fields)
  end.
End json_induction.

(** ** Sample configuration and requests

    Concrete schemas, runtime, environment and requests on which the
    definitions above are evaluated. *)

Module Sample.

Import Server.

Definition violation (message : string) : list json := [JStr message].

Definition requireString (name : string) (fields : list (string * json))
    : list json :=
  match assoc name fields with
  | Some (JStr _) => []
  | Some _ => violation ("/" +:+ name +:+ " must be string")
  | None => violation ("must have required property '" +:+ name +:+ "'")
  end.

Definition requireObject (name : string) (fields : list (string * json))
    : list json :=
  match assoc name fields with
  | Some (JObj _) => []
  | Some _ => violation ("/" +:+ name +:+ " must be object")
  | None => violation ("must have required property '" +:+ name +:+ "'")
  end.

Definition requireOneOf (name : string) (allowed : list string)
    (fields : list (string * json)) : list json :=
  match assoc name fields with
  | Some (JStr s) =>
      if bool_decide (s ∈ allowed) then []
      else violation ("/" +:+ name +:+ " must be equal to one of the allowed values")
  | _ => []
  end.

Definition noOthers (allowed : list string) (fields : list (string * json))
    : list json :=
  flat_map (fun kv : string * json =>
              if bool_decide (kv.1 ∈ allowed) then []
              else violation "must NOT have additional properties") fields.

Definition text (name : string) (fields : list (string * json)) : string :=
  match assoc name fields with Some (JStr s) => s | _ => "" end.

Definition knownActions : list string :=
  ["echo"; "jobtread.query"; "jobtread.pushJobToQbo"; "make.trigger"].

(** Modelled from the spec: src/schemas/envelope.schema.json is not among
    the sources. The envelope requires [action], [mode], [idempotencyKey]
    and [params] with the stated types ([action] one of the known action
    names, [mode] one of [dry_run] and [execute]), unknown top-level
    fields are rejected, and every violation is listed. *)
Definition envelopeSchema (v : json) : list json + ActionEnvelope :=
  match v with
  | JObj fields =>
      let errors :=
        requireString "action" fields ++ requireString "mode" fields
        ++ requireString "idempotencyKey" fields ++ requireObject "params" fields
        ++ requireOneOf "action" knownActions fields
        ++ requireOneOf "mode" ["dry_run"; "execute"] fields
        ++ noOthers ["action"; "mode"; "idempotencyKey"; "params"] fields in
      match errors with
      | [] =>
          inr {| action := text "action" fields;
                 mode := if String.eqb (text "mode" fields) "execute"
                         then execute else dry_run;
                 idempotencyKey := text "idempotencyKey" fields;
                 params := default JNull (assoc "params" fields) |}
      | _ => inl errors
      end
  | _ => inl (violation "must be object")
  end.

(** Modelled from the spec: src/schemas/jobtread.query.schema.json is not
    among the sources; [params.pave] is an object. *)
Definition jobtreadQuerySchema (v : json)
    : list json + Actions.JobTreadQueryParams :=
  match v with
  | JObj fields =>
      match requireObject "pave" fields with
      | [] => inr {| Actions.pave := default JNull (assoc "pave" fields) |}
      | errors => inl errors
      end
  | _ => inl (violation "must be object")
  end.

(** Modelled from the spec: src/schemas/jobtread.pushJobToQbo.schema.json
    is not among the sources; [params.jobId] is a non-empty string. *)
Definition jobtreadPushJobToQboSchema (v : json)
    : list json + Actions.JobTreadPushJobToQboParams :=
  match v with
  | JObj fields =>
      match requireString "jobId" fields with
      | [] =>
          if Str.truthy (text "jobId" fields)
          then inr {| Actions.jobId := text "jobId" fields |}
          else inl (violation "/jobId must NOT have fewer than 1 characters")
      | errors => inl errors
      end
  | _ => inl (violation "must be object")
  end.

(** Modelled from the spec: src/schemas/make.trigger.schema.json is not
    among the sources; [params.webhookUrl] (a URI) and [params.payload]
    (an object) are present. *)
Definition makeTriggerSchema (v : json)
    : list json + Actions.MakeTriggerParams :=
  match v with
  | JObj fields =>
      match requireString "webhookUrl" fields ++ requireObject "payload" fields with
      | [] =>
          if Str.includes (text "webhookUrl" fields) "://"
          then inr {| Actions.webhookUrl := text "webhookUrl" fields;
                      Actions.payload := default JNull (assoc "payload" fields) |}
          else inl (violation "/webhookUrl must match format 'uri'")
      | errors => inl errors
      end
  | _ => inl (violation "must be object")
  end.

Definition schemas : Schemas :=
  {| validateEnvelope := envelopeSchema;
     validateJobTreadQuery := jobtreadQuerySchema;
     validateJobTreadPushJobToQbo := jobtreadPushJobToQboSchema;
     validateMakeTrigger := makeTriggerSchema |}.

(** The host of a URL of the form [https://host/path]. *)
Fixpoint upToSlash (s : string) : string :=
  match s with
  | EmptyString => EmptyString
  | String c s' => if Ascii.eqb c "/" then EmptyString else String c (upToSlash s')
  end.

Definition hostnameOf (url : string) : option string :=
  if Str.startsWith url "https://"
  then match upToSlash (Str.slice 8 url) with
       | EmptyString => None
       | host => Some host
       end
  else None.

Definition quote : string := String "034" EmptyString.

(** JSON text of a value whose strings need no escaping. *)
Fixpoint stringify (v : json) : string :=
  match v with
  | JNull => "null"
  | JBool b => if b then "true" else "false"
  | JNum n => pretty n
  | JStr s => quote +:+ s +:+ quote
  | JArr items => "[" +:+ Str.join "," (map stringify items) +:+ "]"
  | JObj fields =>
      "{" +:+ Str.join ","
                (map (fun kv : string * json =>
                        quote +:+ kv.1 +:+ quote +:+ ":" +:+ stringify kv.2)
                   fields) +:+ "}"
  end.

(** The first instants of 1 May 2024 (UTC), in milliseconds. *)
Definition t0 : Z := 1714521600000.

Definition inWindow (t : Z) : bool := (t0 <=? t) && (t <? t0 + 10).

(** A runtime that answers as the platform does on the inputs the samples
    use: the clock readings [t0 .. t0 + 9], sixty days of retention, URLs
    of the form [https://host/path], response texts that are not JSON. *)
Definition rt : Runtime :=
  {| url_hostname := hostnameOf;
     json_parse := fun _ => None;
     json_stringify := stringify;
     iso_of_time := fun t =>
       if inWindow t then "2024-05-01T00:00:00.00" +:+ pretty (t - t0) +:+ "Z"
       else "1970-01-01T00:00:00.000Z";
     iso_days_before := fun t days =>
       if inWindow t && (days =? 60)
       then Some ("2024-03-02T00:00:00.00" +:+ pretty (t - t0) +:+ "Z")
       else None;
     localeCompare := fun a b =>
       match String.compare a b with Lt => -1 | Eq => 0 | Gt => 1 end |}.

Definition env : Env :=
  {| HMAC_SECRET := Some "test-hmac-secret";
     GATEWAY_KEY_DB := Some "gateway-key-db";
     GATEWAY_KEY_CI := Some "gateway-key-ci";
     JT_GRANT_KEY_DB := Some "grant-key-db";
     JT_GRANT_KEY_CI := Some "grant-key-ci";
     ALLOW_HOSTS := Some "hooks.make.com";
     LOG_RETENTION_DAYS := None |}.

Definition offline : Z → Attempt := fun _ => Failed "connect ECONNREFUSED".

Definition online : Z → Attempt := fun _ =>
  Responded {| statusCode := 200; deliveredHeaders := []; bodyText := "accepted" |}.

Definition oracle (network : Z → Attempt) : Oracle :=
  {| uuid := "0b7e4c1a-5d2f-4e8a-9c3b-6f1d2a7e8b90";
     clock := fun k => t0 + Z.of_nat k;
     network := network |}.

(** Request bodies are written with ['] for the double quote. *)
Definition jsonText (s : string) : string :=
  string_of_list_ascii
    (map (fun c : ascii => if Ascii.eqb c "'" then "034"%char else c)
       (list_ascii_of_string s)).

Definition signed (raw : string) (signature : string) (parsed : json) : Request :=
  {| rawBody := Some (jsonText raw);
     x_gateway_key := Some "gateway-key-db";
     x_signature := Some signature;
     body := parsed |}.

Definition envelopeOf (action mode key : string) (params : json) : json :=
  JObj [("action", JStr action); ("mode", JStr mode);
        ("idempotencyKey", JStr key); ("params", params)].

Definition pushExecute : Request :=
  signed "{'action':'jobtread.pushJobToQbo','mode':'execute','idempotencyKey':'k1','params':{'jobId':'12345'}}"
    "sha256=87de62fbff9574c17b0488c695f0c0cd75e2d732d84f0dad03933fb55971bf68"
    (envelopeOf "jobtread.pushJobToQbo" "execute" "k1"
       (JObj [("jobId", JStr "12345")])).

Definition pushExecuteNoJob : Request :=
  signed "{'action':'jobtread.pushJobToQbo','mode':'execute','idempotencyKey':'k1','params':{}}"
    "sha256=089f927d92f43e7c75366ebe9369fefaf15211bf526f8a4acb355f705c3d376a"
    (envelopeOf "jobtread.pushJobToQbo" "execute" "k1" (JObj [])).

Definition pushDryRun : Request :=
  signed "{'action':'jobtread.pushJobToQbo','mode':'dry_run','idempotencyKey':'k1','params':{'jobId':'12345'}}"
    "sha256=95e87cb51d82e95b73f1724bde86043d1a22643ced94c8fdd46d9c86510e9e5f"
    (envelopeOf "jobtread.pushJobToQbo" "dry_run" "k1"
       (JObj [("jobId", JStr "12345")])).


Definition noBody : Request :=
  {| rawBody := None; x_gateway_key := Some "gateway-key-db";
     x_signature := None; body := JNull |}.

Definition emptyStore : Store := {| idempotencyCache := ∅; logs := [] |}.

(** The store after [pushExecute] was served once. *)
Definition served : Response :=
  Success "7c9e6679-7425-40de-944b-e07fc1f90ae7" (JStr "accepted")
    ["Job 12345 pushed to QuickBooks Online successfully"].

Definition storeAfterPush : Store :=
  {| idempotencyCache := {[ "jobtread.pushJobToQbo:DB:k1" := served ]};
     logs := [] |}.

Definition entryAt (timestamp traceId : string) : Logs.LogEntry :=
  {| Logs.timestamp := timestamp; Logs.traceId := traceId; Logs.brand := DB;
     Logs.action := "echo"; Logs.mode := dry_run; Logs.status := success;
     Logs.duration := 3; Logs.notes := []; Logs.error := None;
     Logs.extra := [] |}.

Definition january : Logs.LogEntry := entryAt "2024-01-15T10:00:00.000Z" "t-january".
Definition april : Logs.LogEntry := entryAt "2024-04-20T10:00:00.000Z" "t-april".
Definition may : Logs.LogEntry := entryAt "2024-05-01T00:00:00.000Z" "t-may".

(** A log entry that carries the tenant credential in a further property,
    also inside a nested array. *)
Definition leaking : Logs.LogEntry :=
  {| Logs.timestamp := "2024-05-01T00:00:00.000Z"; Logs.traceId := "t-leak";
     Logs.brand := DB; Logs.action := "jobtread.query"; Logs.mode := execute;
     Logs.status := success; Logs.duration := 12; Logs.notes := [];
     Logs.error := None;
     Logs.extra :=
       [("grantKey", JStr "grant-key-db");
        ("calls", JArr [JObj [("authorizationHeader", JStr "Bearer abc")]])] |}.


(** The envelopes and params the sample schemas read from the requests. *)
Definition pushEnvelope (mode : Mode) (params : json) : ActionEnvelope :=
  {| action := "jobtread.pushJobToQbo"; mode := mode; idempotencyKey := "k1";
     params := params |}.

Definition pushParams : Actions.JobTreadPushJobToQboParams :=
  {| Actions.jobId := "12345" |}.



End Sample.
(** ** Further vocabulary *)


(** An entry passes the filters of a query: each filter that is given (and,
    for the two strings, not empty) equals the field of the entry. *)
Definition wanted {F} (want : option F) (got : F) : Prop :=
  ∀ w, want = Some w → got = w.

Global Instance wanted_dec {F} `{EqDecision F} (want : option F) (got : F) :
  Decision (wanted want got).
Proof.
  destruct want as [w|].
  - destruct (decide (got = w)) as [Heq|Hne].
    + left. by intros ? [= <-].
    + right. intros Hw. by apply Hne, Hw.
  - left. by intros ? [=].
Defined.

Definition passes (f : Logs.LogFilters) (e : Logs.LogEntry) : Prop :=
  wanted (present (Logs.byTraceId f)) (Logs.traceId e)
  ∧ wanted (Logs.byBrand f) (Logs.brand e)
  ∧ wanted (present (Logs.byAction f)) (Logs.action e)
  ∧ wanted (Logs.byStatus f) (Logs.status e).

Global Instance passes_dec (f : Logs.LogFilters) (e : Logs.LogEntry) :
  Decision (passes f e).
Proof. unfold passes. apply _. Defined.

(** The order the query sorts by: [a] may stand before [b]. *)
Definition newestFirst (rt : Runtime) (a b : Logs.LogEntry) : Prop :=
  localeCompare rt (Logs.timestamp b) (Logs.timestamp a) ≤ 0.

(** No object in [v] has an own [email] property or a numeric [size]
    above 100. *)
Definition withinLimits (v : json) : Prop :=
  ∀ fields, occursIn (JObj fields) v →
    hasKey "email" fields = false
    ∧ ∀ size, assoc "size" fields = Some (JNum size) → size ≤ 100.

(** An object that names [unitPrice] and not [unitCost]. *)
Definition pricedWithoutCost (v : json) : Prop :=
  ∃ fields, v = JObj fields
    ∧ hasKey "unitPrice" fields = true ∧ hasKey "unitCost" fields = false.

(** An object with an own property named [hasOwnProperty]. *)
Definition shadowsHasOwnProperty (v : json) : Prop :=
  ∃ fields, v = JObj fields ∧ hasKey "hasOwnProperty" fields = true.

(** The relation the allow-list tests between the host name of a URL and
    a configured host: they are equal, or one ends with a dot followed by
    the other. *)
Definition hostsRelated (hostname allowedHost : string) : Prop :=
  hostname = allowedHost
  ∨ (∃ q, hostname = q +:+ "." +:+ allowedHost)
  ∨ (∃ q, allowedHost = q +:+ "." +:+ hostname).

(** The event is a pause, or the outbound call [call]. *)
Definition pauseOr (call : Event) (e : Event) : Prop :=
  e = call ∨ ∃ milliseconds, e = EvSleep milliseconds.

(** The action names whose params the handler knows how to validate (the
    cases of its [switch]). *)
Definition knownActions : list string :=
  ["echo"; "jobtread.query"; "jobtread.pushJobToQbo"; "make.trigger"].

(** ** src/server.ts: the admin endpoint for the audit log *)

Module Admin.

(** [process.env.ADMIN_BASIC_USER] and [process.env.ADMIN_BASIC_PASS] *)
Record AdminEnv := {
  ADMIN_BASIC_USER : option string;
  ADMIN_BASIC_PASS : option string
}.

(** [request.query]: the four strings the handler reads from it. *)
Record Query := {
  traceId : option string;
  brand : option string;
  action : option string;
  status : option string
}.

(** The answers of the endpoint: 200 [{ ok: true, logs }], 401
    [{ ok: false, error }] with a [WWW-Authenticate] header, and the 500
    [{ ok: false, error }] of the [catch] block. *)
Inductive Reply :=
| Listed (logs : list Logs.LogEntry)
| Unauthorized (error : string)
| Failed (error : string).

Definition brandOf (name : string) : option Brand :=
  if String.eqb name "DB" then Some DB
  else if String.eqb name "CI" then Some CI
  else None.

Definition statusOf (name : string) : option Status :=
  if String.eqb name "success" then Some success
  else if String.eqb name "error" then Some error
  else if String.eqb name "warning" then Some warning
  else None.

(** A filter string of the query against a field that holds one of a few
    names: no filter when the string is absent or empty, the value it
    names, or a string that no entry's field equals. *)
Inductive Wanted (A : Type) :=
| Anything
| Exactly (a : A)
| Nothing.
Arguments Anything {A}.
Arguments Exactly {A} a.
Arguments Nothing {A}.

Definition wantedOf {A} (named : string → option A) (given : option string)
    : Wanted A :=
  match present given with
  | None => Anything
  | Some name =>
      match named name with
      | Some a => Exactly a
      | None => Nothing
      end
  end.

Definition optionOf {A} (w : Wanted A) : option (option A) :=
  match w with
  | Anything => Some None
  | Exactly a => Some (Some a)
  | Nothing => None
  end.

(** Steps 2 and 3: [getLogs(filters)] for the filters object built from
    the truthy strings of the query. [log.brand === filters.brand] and
    [log.status === filters.status] compare the filter with one of the
    names an entry can hold, so another string keeps no entry. *)
Definition getLogsOf (rt : Runtime) (q : Query) (logs : list Logs.LogEntry)
    : list Logs.LogEntry :=
  match optionOf (wantedOf brandOf (brand q)),
        optionOf (wantedOf statusOf (status q)) with
  | Some byBrand, Some byStatus =>
      Logs.getLogs rt
        (Some {| Logs.byTraceId := present (traceId q);
                 Logs.byBrand := byBrand;
                 Logs.byAction := present (action q);
                 Logs.byStatus := byStatus |})
        logs
  | _, _ => []
  end.

(** [fastify.get('/admin/logs', ...)]. [decode] is
    [Buffer.from(text, 'base64').toString('utf-8')]. *)
Definition handler (rt : Runtime) (decode : string → string) (env : AdminEnv)
    (authorization : option string) (q : Query) (logs : list Logs.LogEntry)
    : Reply :=
  match present (ADMIN_BASIC_USER env), present (ADMIN_BASIC_PASS env) with
  | Some adminUser, Some adminPass =>
      match present authorization with
      | None => Unauthorized "Authentication required"
      | Some authHeader =>
          if negb (Str.startsWith authHeader "Basic ")
          then Unauthorized "Authentication required"
          else
            let base64Credentials := Str.slice 6 authHeader in
            let credentials := decode base64Credentials in
            (* [const [username, password] = credentials.split(':')] *)
            let parts := Str.split ":" credentials in
            let username := parts !! 0%nat in
            let password := parts !! 1%nat in
            if negb (bool_decide (username = Some adminUser))
               || negb (bool_decide (password = Some adminPass))
            then Unauthorized "Invalid credentials"
            else Listed (getLogsOf rt q logs)
      end
  | _, _ => Failed "Admin credentials not configured"
  end.

End Admin.

(** ** Further samples *)

Module Scenario.




(** The decoding of the one Basic credential the samples use. *)
Definition decode (text : string) : string :=
  if String.eqb text "YWRtaW46czNjcmV0" then "admin:s3cret" else "".

Definition adminEnv : Admin.AdminEnv :=
  {| Admin.ADMIN_BASIC_USER := Some "admin";
     Admin.ADMIN_BASIC_PASS := Some "s3cret" |}.

Definition everything : Admin.Query :=
  {| Admin.traceId := None; Admin.brand := None; Admin.action := None;
     Admin.status := None |}.


End Scenario.


(** * Properties *)

(** ** Strings *)

Lemma append_assoc (a b c : string) : (a +:+ b) +:+ c = a +:+ (b +:+ c).
Proof.
  induction a as [|x a IH]; [done|].
  change (String x ((a +:+ b) +:+ c) = String x (a +:+ (b +:+ c))).
  by rewrite IH.
Qed.

Lemma append_empty (a : string) : a +:+ "" = a.
Proof.
  induction a as [|x a IH]; [done|].
  change (String x (a +:+ "") = String x a). by rewrite IH.
Qed.

Lemma rev_app_append (a b : string) :
  String.rev_app a b = String.rev_app a "" +:+ b.
Proof.
  revert b. induction a as [|x a IH]; intros b; simpl; [done|].
  rewrite (IH (String x b)), (IH (String x "")).
  by rewrite append_assoc.
Qed.

Lemma rev_append (a b : string) :
  String.rev (a +:+ b) = String.rev b +:+ String.rev a.
Proof.
  unfold String.rev. induction a as [|x a IH].
  - change ("" +:+ b) with b. by rewrite append_empty.
  - change (String x a +:+ b) with (String x (a +:+ b)). simpl.
    rewrite (rev_app_append (a +:+ b)), IH, (rev_app_append a (String x "")).
    by rewrite append_assoc.
Qed.

Lemma rev_involutive (a : string) : String.rev (String.rev a) = a.
Proof.
  induction a as [|x a IH]; [done|].
  unfold String.rev at 2. simpl. rewrite rev_app_append.
  fold (String.rev a). rewrite rev_append, IH. done.
Qed.

Lemma startsWith_app (p s : string) : Str.startsWith (p +:+ s) p = true.
Proof.
  unfold Str.startsWith. induction p as [|c p IH].
  - by destruct s.
  - change (String c p +:+ s) with (String c (p +:+ s)). simpl.
    by destruct (ascii_dec c c).
Qed.

Lemma startsWith_split (s p : string) :
  Str.startsWith s p = true → s = p +:+ Str.slice (String.length p) s.
Proof.
  unfold Str.startsWith. revert s. induction p as [|c p IH]; intros s; simpl.
  - by destruct s.
  - destruct s as [|d s]; simpl; [done|].
    destruct (ascii_dec c d) as [->|]; [|done].
    intros H.
    change (String d s = String d (p +:+ Str.slice (String.length p) s)).
    f_equal. by apply IH.
Qed.

(** [s.endsWith(p)] holds exactly when [s] is some string followed by [p]. *)
Lemma endsWith_iff (s p : string) :
  Str.endsWith s p = true ↔ ∃ q, s = q +:+ p.
Proof.
  unfold Str.endsWith. split.
  - intros H. apply (startsWith_split (String.rev s) (String.rev p)) in H.
    exists (String.rev (Str.slice (String.length (String.rev p)) (String.rev s))).
    rewrite <- (rev_involutive s), H at 1.
    by rewrite rev_append, rev_involutive.
  - intros [q ->]. rewrite rev_append. apply startsWith_app.
Qed.




(** ** Allowlist *)

Lemma hostMatches_parent (hostname allowedHost : string) (allowed : list string) :
  allowedHost ∈ allowed →
  Str.endsWith allowedHost ("." +:+ hostname) = true →
  Allowlist.hostMatches hostname allowed = true.
Proof.
  induction allowed as [|a rest IH]; intros Hin Hends.
  - by apply not_elem_of_nil in Hin.
  - simpl. apply elem_of_cons in Hin as [<- | Hin].
    + rewrite Hends. by repeat case_match.
    + rewrite IH by done. by repeat case_match.
Qed.

(** C10. A host name is accepted whenever some configured host ends with
    a dot followed by that host name, so parent domains of the configured
    hosts are accepted: with only [hooks.make.com] configured, a URL whose
    host name is [make.com] (neither listed nor a subdomain of a listed
    host) is allowed. *)
Theorem isHostAllowed_accepts_parent_domains (rt : Runtime) :
  (∀ allowHosts url hostname allowedHost,
     allowHosts ≠ "" →
     url_hostname rt url = Some hostname →
     allowedHost ∈ Allowlist.allowedHostsOf allowHosts →
     Str.endsWith allowedHost ("." +:+ hostname) = true →
     Allowlist.isHostAllowed rt (Some allowHosts) url = Ok true)
  ∧ (∀ url,
       url_hostname rt url = Some "make.com" →
       ("make.com" ∉ Allowlist.allowedHostsOf "hooks.make.com")
       ∧ Forall (fun allowedHost =>
                   Str.endsWith "make.com" ("." +:+ allowedHost) = false)
           (Allowlist.allowedHostsOf "hooks.make.com")
       ∧ Allowlist.isHostAllowed rt (Some "hooks.make.com") url = Ok true).
Proof.
  split.
  - intros allowHosts url hostname allowedHost Hne Hurl Hin Hends.
    unfold Allowlist.isHostAllowed.
    destruct allowHosts as [|c s]; [done|]. simpl. rewrite Hurl.
    f_equal. by eapply hostMatches_parent.
  - intros url Hurl. split; [|split].
    + vm_compute. intros H. apply list_elem_of_singleton in H. discriminate.
    + vm_compute. by repeat constructor.
    + unfold Allowlist.isHostAllowed. simpl. by rewrite Hurl.
Qed.

Lemma isHostAllowed_accepts_parent_domains_witness :
  url_hostname Sample.rt "https://make.com/hook" = Some "make.com"
  ∧ Allowlist.isHostAllowed Sample.rt (Some "hooks.make.com")
      "https://make.com/hook" = Ok true.
Proof.
  split; [reflexivity|].
  apply (proj2 (isHostAllowed_accepts_parent_domains Sample.rt)
           "https://make.com/hook").
  reflexivity.
Defined.

(** ** Audit log: retention *)

Lemma pruneLoop_step (cutoff : string) (i : nat) (logs : list Logs.LogEntry) :
  Logs.pruneLoop cutoff i logs =
  match logs !! i with
  | None => logs
  | Some e =>
      if Str.lt (Logs.timestamp e) cutoff
      then Logs.pruneLoop cutoff i (delete i logs)
      else Logs.pruneLoop cutoff (S i) logs
  end.
Proof.
  rewrite Logs.pruneLoop_unfold_eq at 1. unfold Logs.pruneLoop_unfold.
  unfold inspect. simpl.
  cut (∀ (found : option Logs.LogEntry) (H : logs !! i = found),
         match found as o return logs !! i = o → list Logs.LogEntry with
         | Some l =>
             λ e, Logs.pruneLoop_unfold_clause_1_clause_2 cutoff i logs l
                    (Str.lt (Logs.timestamp l) cutoff) e
         | None => λ _, logs
         end H
         = match found with
           | Some e =>
               if Str.lt (Logs.timestamp e) cutoff
               then Logs.pruneLoop cutoff i (delete i logs)
               else Logs.pruneLoop cutoff (S i) logs
           | None => logs
           end).
  { intros G. apply (G _ eq_refl). }
  intros [e|] H; [|done].
  by destruct (Str.lt (Logs.timestamp e) cutoff).
Qed.

(** The loop leaves the entries before [i] alone and filters the rest. *)
Lemma pruneLoop_filter (cutoff : string) (n i : nat) (logs : list Logs.LogEntry) :
  (length logs - i)%nat = n →
  Logs.pruneLoop cutoff i logs = take i logs ++ filter (kept cutoff) (drop i logs).
Proof.
  revert i logs. induction n as [n IH] using lt_wf_ind. intros i logs Hn.
  rewrite pruneLoop_step. destruct (logs !! i) as [e|] eqn:Hi.
  - pose proof (lookup_lt_Some _ _ _ Hi) as Hlt.
    rewrite (drop_S _ _ _ Hi), filter_cons.
    destruct (Str.lt (Logs.timestamp e) cutoff) eqn:Hold.
    + rewrite decide_False by (unfold kept; congruence).
      rewrite (IH (length (delete i logs) - i)%nat).
      * rewrite delete_take_drop, take_app_le by (rewrite length_take; lia).
        rewrite take_take, Nat.min_id.
        rewrite drop_app_ge by (rewrite length_take; lia).
        rewrite length_take, Nat.min_l by lia.
        by replace (i - i)%nat with 0%nat by lia.
      * rewrite length_delete by eauto. lia.
      * done.
    + rewrite decide_True by done.
      rewrite (IH (length logs - S i)%nat) by lia.
      rewrite (take_S_r _ _ _ Hi). by rewrite <- app_assoc.
  - apply lookup_ge_None in Hi.
    rewrite take_ge, drop_ge by lia. simpl. by rewrite app_nil_r.
Qed.

Lemma insertBy_perm {A} (cmp : A → A → Z) (x : A) (l : list A) :
  Logs.insertBy cmp x l ≡ₚ x :: l.
Proof.
  induction l as [|y l IH]; simpl; [done|].
  destruct (cmp x y <=? 0); [done|]. rewrite IH. apply Permutation_swap.
Qed.

Lemma sortBy_perm {A} (cmp : A → A → Z) (l : list A) : Logs.sortBy cmp l ≡ₚ l.
Proof.
  induction l as [|x l IH]; simpl; [done|].
  unfold Logs.sortBy in *. simpl. by rewrite insertBy_perm, IH.
Qed.




(** ** Audit log: redaction *)

Lemma forallb_flat_map {A B} (p : B → bool) (f : A → list B) (l : list A) :
  Forall (fun x => forallb p (f x) = true) l → forallb p (flat_map f l) = true.
Proof.
  induction 1 as [|x l Hx _ IH]; simpl; [done|].
  by rewrite forallb_app, Hx, IH.
Qed.

(** [maskSecrets] redacts: its result is redacted, whatever the value. *)
Lemma maskSecrets_redacted (v : json) : redacted (Logs.maskSecrets v) = true.
Proof.
  induction v as [| | | |items IH|fields IH] using json_nested_ind; simpl; try done.
  - induction IH as [|x l Hx _ IHl]; simpl; [done|]. by rewrite Hx, IHl.
  - apply forallb_flat_map. eapply Forall_impl; [exact IH|].
    intros [key value] Hvalue. simpl in *.
    destruct (String.eqb key "__proto__"); [done|].
    destruct (Logs.isSensitive key) eqn:Hsens; simpl.
    { by rewrite Hsens. }
    destruct value; simpl; rewrite Hsens; simpl in *; try done.
    all: by rewrite Hvalue.
Qed.

(** [addLog] stores entries as they are given: an entry found in the log
    after an append is the appended entry or was there before. *)
Lemma addLog_verbatim (rt : Runtime) (days : option string) (now : Z)
    (entry e : Logs.LogEntry) (logs : list Logs.LogEntry) :
  e ∈ (Logs.addLog rt days now entry logs).1 → e ∈ logs ++ [entry].
Proof.
  unfold Logs.addLog.
  destruct (Logs.cutoffTimestamp rt days now) as [cutoff|]; simpl; [|done].
  rewrite (pruneLoop_filter cutoff _ 0 _ eq_refl). simpl.
  by intros [_ ?]%list_elem_of_filter.
Qed.

(** C2, evaluated. An entry with a property named [grantKey], and with
    [authorizationHeader] inside a nested array, is appended to the empty
    log and queried back: the query returns the entry as it was given,
    credential included, and not the redaction marker; [maskSecrets]
    applied to the same entry would have redacted it. *)
Theorem addLog_does_not_redact :
  let stored := (Logs.addLog Sample.rt None Sample.t0 Sample.leaking []).1 in
  Logs.getLogs Sample.rt None stored = [Sample.leaking]
  ∧ assoc "grantKey" (Logs.extra Sample.leaking) = Some (JStr "grant-key-db")
  ∧ redacted (asObject Sample.leaking) = false
  ∧ redacted (Logs.maskSecrets (asObject Sample.leaking)) = true.
Proof.
  split; [|split; [|split]].
  - vm_compute. reflexivity.
  - reflexivity.
  - vm_compute. reflexivity.
  - apply maskSecrets_redacted.
Qed.


(** ** Lint of a Pave query *)

Lemma checkObject_object (fields : list (string * json)) (path : string) :
  Lint.checkObject (JObj fields) path =
  (here ← Lint.checkRules fields path;
   below ← Lint.forEachEntry
             (fun key value => Lint.visit (Lint.childPath path key) value) fields;
   Ok (Lint.pushed_app here below)).
Proof. reflexivity. Qed.

Lemma checkObject_array (elements : list json) (path : string) :
  Lint.checkObject (JArr elements) path =
  Lint.forEachIndexed
    (fun value index => Lint.visit (Lint.childPath path (pretty index)) value)
    elements 0%nat.
Proof. reflexivity. Qed.

Lemma bind_Ok {A B} (r : Result A) (k : A → Result B) (b : B) :
  (r ≫= k) = Ok b → ∃ a, r = Ok a ∧ k a = Ok b.
Proof. destruct r as [a|m]; simpl; [eauto|done]. Qed.



Lemma forEachIndexed_total {A} (f : A → nat → Result Lint.Pushed) (l : list A)
    (start : nat) :
  (∀ x index, x ∈ l → ∃ a, f x index = Ok a) →
  ∃ r, Lint.forEachIndexed f l start = Ok r.
Proof.
  revert start. induction l as [|y l IH]; intros start Hall; simpl; [eauto|].
  destruct (Hall y start) as [a ->]; [set_solver|].
  destruct (IH (S start)) as [b ->]; [intros; apply Hall; set_solver|].
  simpl. eauto.
Qed.

Lemma forEachEntry_total {A} (f : string → A → Result Lint.Pushed)
    (l : list (string * A)) :
  (∀ key value, (key, value) ∈ l → ∃ a, f key value = Ok a) →
  ∃ r, Lint.forEachEntry f l = Ok r.
Proof.
  induction l as [|[k v] l IH]; intros Hall; simpl; [eauto|].
  destruct (Hall k v) as [a ->]; [set_solver|].
  destruct IH as [b ->]; [intros; apply Hall; set_solver|].
  simpl. eauto.
Qed.



Lemma occursIn_trans (a b c : json) : occursIn a b → occursIn b c → occursIn a c.
Proof.
  intros Hab Hbc. induction Hbc; [done| |].
  - eapply occurs_item; eauto.
  - eapply occurs_property; eauto.
Qed.

(** Without a property named [hasOwnProperty] the lint returns. *)
Lemma checkObject_returns (v : json) :
  plainObjects v →
  (∀ path, ∃ pushed, Lint.checkObject v path = Ok pushed)
  ∧ (∀ path, ∃ pushed, Lint.visit path v = Ok pushed).
Proof.
  induction v as [| | | |items IH|fields IH] using json_nested_ind; intros Hplain.
  1-4: split; intros path; simpl; eauto.
  - rewrite Forall_forall in IH.
    assert (∀ item, item ∈ items → plainObjects item) as Hitems.
    { intros item Hin inside Hocc. apply Hplain.
      eapply occurs_item; eauto. }
    split; intros path.
    + rewrite checkObject_array. apply forEachIndexed_total.
      intros item index Hin. apply (IH item Hin (Hitems item Hin)).
    + simpl. apply forEachIndexed_total.
      intros item index Hin. apply (IH item Hin (Hitems item Hin)).
  - rewrite Forall_forall in IH.
    assert (∀ path, ∃ pushed, Lint.checkObject (JObj fields) path = Ok pushed)
      as Hobject.
    { intros path. rewrite checkObject_object. unfold Lint.checkRules.
      rewrite (Hplain fields (occurs_here _)). simpl.
      destruct (forEachEntry_total
                  (fun key value => Lint.visit (Lint.childPath path key) value) fields)
        as [below ->]; [|simpl; eauto].
      intros key value Hin. apply (IH (key, value) Hin).
      intros inside Hocc. apply Hplain. eapply occurs_property; eauto. }
    split; [exact Hobject|]. intros path. apply Hobject.
Qed.

(** ** Signature verification *)

(** The digest of FIPS 180-4's one-block example and the HMAC of RFC
    4231's second test case. *)
Example sha256_abc :
  Crypto.toHex (Crypto.sha256 (Crypto.utf8 "abc"))
  = "ba7816bf8f01cfea414140de5dae2223b00361a396177a9cb410ff61f20015ad".
Proof. vm_compute. reflexivity. Qed.

Example hmacSha256_rfc4231 :
  Crypto.toHex (Crypto.hmacSha256 (Crypto.utf8 "Jefe")
                  (Crypto.utf8 "what do ya want for nothing?"))
  = "5bdcc146bf60754e6a042426089575c75a003f089d2739839dec58b964ec3843".
Proof. vm_compute. reflexivity. Qed.

Lemma sha256_length (message : Crypto.Buffer) :
  length (Crypto.sha256 message) = 32%nat.
Proof. reflexivity. Qed.

Lemma hmacSha256_length (key message : Crypto.Buffer) :
  length (Crypto.hmacSha256 key message) = 32%nat.
Proof. apply sha256_length. Qed.

Lemma hex_of_byte (x : byte) :
  Crypto.fromHex (Crypto.toHex [x]) = [x].
Proof. destruct x; vm_compute; reflexivity. Qed.

Lemma fromHex_toHex (b : Crypto.Buffer) : Crypto.fromHex (Crypto.toHex b) = b.
Proof.
  induction b as [|x b IH]; [done|].
  pose proof (hex_of_byte x) as Hx.
  cbn [Crypto.toHex Crypto.fromHex] in *.
  destruct (Crypto.unhex (Crypto.hexDigit (Crypto.ZOfByte x / 16))); [|done].
  destruct (Crypto.unhex (Crypto.hexDigit (Crypto.ZOfByte x `mod` 16))); [|done].
  injection Hx as ->. by rewrite IH.
Qed.

Lemma startsWith_truthy (s : string) :
  Str.startsWith s "sha256=" = true → Str.truthy s = true.
Proof. by destruct s. Qed.

(** The verdict of [verifyHmacSignature]: the header has the prefix and
    what follows decodes to the digest of the body under the secret. *)
Lemma verifyHmacSignature_iff (body signature secret : string) :
  Auth.verifyHmacSignature body signature secret = true ↔
  Str.startsWith signature "sha256=" = true
  ∧ Crypto.fromHex (Str.slice 7 signature)
    = Crypto.hmacSha256 (Crypto.utf8 secret) (Crypto.utf8 body).
Proof.
  unfold Auth.verifyHmacSignature, Crypto.timingSafeEqual.
  rewrite fromHex_toHex.
  set (provided := Crypto.fromHex (Str.slice 7 signature)).
  set (expected := Crypto.hmacSha256 (Crypto.utf8 secret) (Crypto.utf8 body)).
  destruct (Str.startsWith signature "sha256=") eqn:Hprefix.
  - rewrite (startsWith_truthy _ Hprefix). cbn [negb orb].
    destruct (length provided =? length expected)%nat eqn:Hlen; cbn [negb].
    + rewrite bool_decide_eq_true. tauto.
    + apply Nat.eqb_neq in Hlen. split; [done|]. intros [_ Heq].
      by rewrite Heq in Hlen.
  - rewrite orb_true_r. split; [done|]. by intros [? _].
Qed.

Lemma fromHex_length (n : nat) (s : string) :
  (String.length s ≤ n)%nat →
  (2 * length (Crypto.fromHex s) ≤ String.length s)%nat.
Proof.
  revert s. induction n as [n IH] using lt_wf_ind. intros s Hn.
  destruct s as [|c1 [|c2 s]]; simpl; [lia..|].
  destruct (Crypto.unhex c1), (Crypto.unhex c2); simpl; try lia.
  specialize (IH (String.length s)). simpl in Hn.
  specialize (IH ltac:(lia) s ltac:(lia)). lia.
Qed.

Lemma fromHex_stops (n : nat) (s : string) (position : nat) :
  (String.length s ≤ n)%nat → notHexAt position s →
  (2 * length (Crypto.fromHex s) ≤ position)%nat.
Proof.
  revert s position. induction n as [n IH] using lt_wf_ind.
  intros s position Hn (c & Hget & Hnot).
  destruct s as [|c1 [|c2 s]]; simpl; [lia..|].
  destruct position as [|[|position]]; simpl in Hget.
  - injection Hget as ->. rewrite Hnot. simpl. lia.
  - injection Hget as ->. rewrite Hnot. destruct (Crypto.unhex c1); simpl; lia.
  - destruct (Crypto.unhex c1), (Crypto.unhex c2); simpl; try lia.
    simpl in Hn.
    specialize (IH (String.length s) ltac:(lia) s position ltac:(lia)).
    assert (notHexAt position s) as Hrest by (exists c; done).
    specialize (IH Hrest). lia.
Qed.

(** C9, as the code has it. The header [sha256=] followed by the hex
    digest of the body under the secret is accepted. A header without the
    prefix is rejected; so is every header whose hexadecimal part does not
    decode to the digest, hence the header of another body or secret with
    a different digest, and a header whose hexadecimal part is shorter
    than the 64 digits of a digest or has a character that is not a
    hexadecimal digit among its first 64. The function is total: it
    returns for every input. *)
Theorem verifyHmacSignature_sound (body secret : string) :
  let digest := Crypto.hmacSha256 (Crypto.utf8 secret) (Crypto.utf8 body) in
  Auth.verifyHmacSignature body (signatureFor body secret) secret = true
  ∧ (∀ signature,
       Str.startsWith signature "sha256=" = false →
       Auth.verifyHmacSignature body signature secret = false)
  ∧ (∀ signature,
       Crypto.fromHex (Str.slice 7 signature) ≠ digest →
       Auth.verifyHmacSignature body signature secret = false)
  ∧ (∀ body' secret',
       Crypto.hmacSha256 (Crypto.utf8 secret') (Crypto.utf8 body') ≠ digest →
       Auth.verifyHmacSignature body' (signatureFor body secret) secret' = false)
  ∧ (∀ hex position,
       (String.length hex < 64)%nat ∨ ((position < 64)%nat ∧ notHexAt position hex) →
       Auth.verifyHmacSignature body ("sha256=" +:+ hex) secret = false).
Proof.
  intros digest.
  assert (∀ b s signature,
            Crypto.fromHex (Str.slice 7 signature)
            ≠ Crypto.hmacSha256 (Crypto.utf8 s) (Crypto.utf8 b) →
            Auth.verifyHmacSignature b signature s = false) as Hdiffers.
  { intros b s signature Hne. apply not_true_is_false.
    intros [_ Heq]%verifyHmacSignature_iff. done. }
  assert (∀ hex, Str.slice 7 ("sha256=" +:+ hex) = hex) as Hslice by done.
  split; [|split; [|split; [|split]]].
  - apply verifyHmacSignature_iff. unfold signatureFor. split.
    + apply startsWith_app.
    + by rewrite Hslice, fromHex_toHex.
  - intros signature Hprefix. apply not_true_is_false.
    intros [Hyes _]%verifyHmacSignature_iff. by rewrite Hprefix in Hyes.
  - intros signature. apply Hdiffers.
  - intros body' secret' Hne. apply Hdiffers.
    unfold signatureFor. rewrite Hslice, fromHex_toHex.
    intros Heq. by apply Hne.
  - intros hex position Hbad. apply Hdiffers. rewrite Hslice.
    intros Heq. pose proof (hmacSha256_length (Crypto.utf8 secret) (Crypto.utf8 body)) as Hlen.
    rewrite <- Heq in Hlen.
    destruct Hbad as [Hshort | [Hpos Hbad]].
    + pose proof (fromHex_length _ hex (le_n _)). lia.
    + pose proof (fromHex_stops _ hex position (le_n _) Hbad). lia.
Qed.

Lemma verifyHmacSignature_sound_witness :
  Crypto.fromHex
    (Str.slice 7 "sha256=5bdcc146bf60754e6a042426089575c75a003f089d2739839dec58b964ec3844")
  ≠ Crypto.hmacSha256 (Crypto.utf8 "Jefe") (Crypto.utf8 "what do ya want for nothing?")
  ∧ Auth.verifyHmacSignature "what do ya want for nothing?"
      "sha256=5bdcc146bf60754e6a042426089575c75a003f089d2739839dec58b964ec3844"
      "Jefe" = false.
Proof.
  assert (Crypto.fromHex
            (Str.slice 7 "sha256=5bdcc146bf60754e6a042426089575c75a003f089d2739839dec58b964ec3844")
          ≠ Crypto.hmacSha256 (Crypto.utf8 "Jefe")
              (Crypto.utf8 "what do ya want for nothing?")) as Hne.
  { vm_compute. discriminate. }
  split; [exact Hne|].
  exact (proj1 (proj2 (proj2
           (verifyHmacSignature_sound "what do ya want for nothing?" "Jefe")))
           _ Hne).
Defined.

(** C9 fails as stated. With the secret [Jefe] and the body of RFC 4231's
    second test, flipping one bit of the header (bit 5 of the character at
    position 8, the hexadecimal digit [b], which becomes [B]) leaves the
    signature accepted, and so does appending characters that are not
    hexadecimal digits. *)
Lemma verifyHmacSignature_accepts_mutated_header :
  let body := "what do ya want for nothing?" in
  let secret := "Jefe" in
  let header :=
    "sha256=5bdcc146bf60754e6a042426089575c75a003f089d2739839dec58b964ec3843" in
  header = signatureFor body secret
  ∧ flipBit 8 5 header
    = "sha256=5Bdcc146bf60754e6a042426089575c75a003f089d2739839dec58b964ec3843"
  ∧ Auth.verifyHmacSignature body (flipBit 8 5 header) secret = true
  ∧ notHexAt 64 (Str.slice 7 (header +:+ "zz"))
  ∧ Auth.verifyHmacSignature body (header +:+ "zz") secret = true.
Proof.
  repeat split; try (vm_compute; reflexivity).
  exists "z"%char. split; vm_compute; reflexivity.
Qed.

(** ** Outbound calls: retry and back-off *)

Section http_loop.
Context (rt : Runtime) (network : Z → Attempt).
Context (url : string) (method : Method) (headers : list (string * string))
        (body : option json) (timeout maxRetries : Z).

Local Abbreviation loop := (Http.loop rt network url method headers body timeout maxRetries).
Local Abbreviation sent := (Http.sent rt url method headers body timeout).

Lemma loop_step (attempt : Z) (lastError : option string) :
  loop attempt lastError =
  if decide (attempt ≤ maxRetries) then
    match network attempt with
    | Responded r =>
        (Ok {| Http.status := statusCode r;
               Http.responseHeaders := deliveredHeaders r;
               Http.data := Http.parseData rt (bodyText r) |}, [sent])
    | Failed message =>
        if decide (maxRetries < attempt + 1) then
          (Throw ("HTTP request failed after " +:+ pretty (maxRetries + 1)
                  +:+ " attempts: " +:+ message), [sent])
        else
          let rest := loop (attempt + 1) (Some message) in
          (rest.1, sent :: EvSleep (backoffDelay (attempt + 1)) :: rest.2)
    end
  else (Throw (default "HTTP request failed" lastError), []).
Proof.
  rewrite Http.loop_unfold_eq at 1. unfold Http.loop_unfold. simpl.
  destruct (decide (attempt ≤ maxRetries)); simpl; [|done].
  destruct (network attempt); simpl; [done|].
  by destruct (decide (maxRetries < attempt + 1)).
Qed.


End http_loop.

Example backoff_two_retries : backoffFrom 0 2 = [1000; 2000].
Proof. reflexivity. Qed.



(** An outbound call does nothing but calls and pauses. *)
Lemma httpRequest_events (rt : Runtime) (network : Z → Attempt)
    (options : Http.HttpRequestOptions) :
  Forall (fun e => isNetwork e = true) (Http.httpRequest rt network options).2.
Proof.
  unfold Http.httpRequest.
  generalize (@None string) as lastError. generalize 0 as attempt.
  generalize (default 2 (Http.maxRetries options)) as maxRetries.
  intros maxRetries attempt.
  remember (Z.to_nat (maxRetries + 1 - attempt)) as left_ eqn:Hleft.
  revert attempt Hleft.
  induction left_ as [left_ IH] using lt_wf_ind. intros attempt Hleft lastError.
  rewrite loop_step.
  destruct (decide (attempt ≤ maxRetries)); [|by constructor].
  destruct (network attempt); [by repeat constructor|].
  destruct (decide (maxRetries < attempt + 1)); [by repeat constructor|].
  simpl. repeat (constructor; [done|]).
  eapply (IH (Z.to_nat (maxRetries + 1 - (attempt + 1)))); [lia|done].
Qed.

(** ** The endpoint *)

Section endpoint.
Context (rt : Runtime) (sc : Server.Schemas) (env : Env).

Import Server.

Local Arguments caught : simpl never.
Local Arguments dispatch : simpl never.
Local Arguments Logs.addLog : simpl never.
Local Arguments grantKeyFor : simpl never.
Local Arguments cacheKey : simpl never.

Lemma validateParams_events (action : string) (params : json) :
  (validateParams sc action params).2 = []
  ∨ (validateParams sc action params).2 = [EvValidateParams action].
Proof. unfold validateParams. repeat case_match; simpl; auto. Qed.


(** The [catch] block leaves the cache alone, and either answers 500 with
    a trace identifier or is left by an exception of [addLog]. *)
Lemma caught_spec (o : Oracle) (st : Store) (evs : list Event)
    (assigned : option Assigned) (message : string) :
  let run := caught rt env o st evs assigned message in
  let traceId := match assigned with Some a => a.1.1.1 | None => uuid o end in
  idempotencyCache (store run) = idempotencyCache st
  ∧ (outcome run = Replied 500 (Failure (Some traceId) message None)
     ∨ ∃ m, outcome run = Rejected m)
  ∧ (events run = evs ∨ events run = evs ++ [EvAddLog error]).
Proof.
  unfold caught. destruct assigned as [a|]; simpl; [|by auto].
  destruct (Str.truthy a.1.2); [|by auto].
  destruct (Logs.addLog _ _ _ _ _).2; simpl; eauto 6.
Qed.


(** A request that is not accepted is answered without touching the
    stores unless by the [catch] block; the answer has a trace identifier
    only when it is the 500 of the [catch] block. *)
Lemma intake_answered (o : Oracle) (st : Store) (request : Request) (run : Run) :
  intake rt sc env o st request = inl run →
  store run = st
  ∧ Forall (fun e => touchesCache e = false ∧ isWork e = false) (events run)
  ∧ ((∃ code error details,
        outcome run = Replied code (Failure None error details)
        ∧ (code = 400 ∨ code = 401 ∨ code = 422))
     ∨ (∃ message,
          outcome run = Replied 500 (Failure (Some (uuid o)) message None))).
Proof.
  unfold intake, replied, caught.
  pose proof (validateParams_events) as Hev.
  repeat case_match; intros [= <-]; simpl;
    (split; [done|]); (split; [|by eauto 10]);
    try by constructor.
  all: match goal with
       | |- Forall _ (validateParams ?s ?a ?p).2 =>
           destruct (Hev a p) as [-> | ->]; by repeat constructor
       end.
Qed.

(** Intake depends neither on the stores nor on the oracle. *)
Lemma intake_accepted (o o' : Oracle) (st st' : Store) (request : Request)
    (accepted : Brand * ActionEnvelope * Validated * list Event) :
  intake rt sc env o st request = inr accepted →
  intake rt sc env o' st' request = inr accepted.
Proof. unfold intake. repeat case_match; intros [= <-]; simplify_eq; done. Qed.

Lemma intake_envelope (o : Oracle) (st : Store) (request : Request)
    (brand : Brand) (envelope : ActionEnvelope) (v : Validated)
    (evs : list Event) :
  intake rt sc env o st request = inr (brand, envelope, v, evs) →
  validateEnvelope sc (body request) = inr envelope
  ∧ (validateParams sc (action envelope) (params envelope)).1 = ValidParams v
  ∧ evs = (validateParams sc (action envelope) (params envelope)).2.
Proof. unfold intake. repeat case_match; intros [= <- <- <- <-]; done. Qed.

(** What steps 7 to 12 do to the cache: nothing, or, for an [execute]
    request whose key had no record and that ends in a 200, the record of
    that response. *)
Lemma execute_accepted_cache (o : Oracle) (st : Store) (brand : Brand)
    (envelope : ActionEnvelope) (v : Validated) (evs : list Event) :
  let run := execute_accepted rt env o st brand envelope v evs in
  let key := cacheKey brand envelope in
  idempotencyCache (store run) = idempotencyCache st
  ∨ (mode envelope = execute
     ∧ idempotencyCache st !! key = None
     ∧ ∃ result notes,
         outcome run = Replied 200 (Success (uuid o) result notes)
         ∧ idempotencyCache (store run)
           = <[key := Success (uuid o) result notes]> (idempotencyCache st)).
Proof.
  unfold execute_accepted, replied.
  destruct (mode envelope) eqn:Hmode; simpl.
  - destruct (grantKeyFor env brand (action envelope)) as [g|m];
      [|left; apply caught_spec].
    destruct (dispatch rt env o v (uuid o) brand g dry_run).1 as [done|m];
      [|left; apply caught_spec].
    destruct (Logs.addLog _ _ _ _ _).2; [by left|].
    left. by rewrite (proj1 (caught_spec _ _ _ _ _)).
  - destruct (idempotencyCache st !! cacheKey brand envelope) eqn:Hhit;
      simpl; [by left|].
    destruct (grantKeyFor env brand (action envelope)) as [g|m];
      [|left; apply caught_spec].
    destruct (dispatch rt env o v (uuid o) brand g execute).1 as [done|m];
      [|left; apply caught_spec].
    destruct (Logs.addLog _ _ _ _ _).2; simpl.
    + right. eauto 10.
    + left. by rewrite (proj1 (caught_spec _ _ _ _ _)).
Qed.

Lemma handler_cache (o : Oracle) (st : Store) (request : Request) :
  let run := handler rt sc env o st request in
  idempotencyCache (store run) = idempotencyCache st
  ∨ ∃ brand envelope result notes,
      validateEnvelope sc (body request) = inr envelope
      ∧ mode envelope = execute
      ∧ idempotencyCache st !! cacheKey brand envelope = None
      ∧ outcome run = Replied 200 (Success (uuid o) result notes)
      ∧ idempotencyCache (store run)
        = <[cacheKey brand envelope := Success (uuid o) result notes]>
            (idempotencyCache st).
Proof.
  unfold handler.
  destruct (intake rt sc env o st request) as [run|[[[brand envelope] v] evs]] eqn:Hintake.
  - left. by rewrite (proj1 (intake_answered _ _ _ _ Hintake)).
  - destruct (execute_accepted_cache o st brand envelope v evs)
      as [Hsame | (Hmode & Hmiss & result & notes & Hout & Hcache)].
    + by left.
    + right. exists brand, envelope, result, notes.
      by destruct (intake_envelope _ _ _ _ _ _ _ Hintake) as (? & _ & _).
Qed.

(** Only success responses are ever stored. *)
Lemma handler_cacheWellFormed (o : Oracle) (st : Store) (request : Request) :
  cacheWellFormed (idempotencyCache st) →
  cacheWellFormed (idempotencyCache (store (handler rt sc env o st request))).
Proof.
  intros Hwf.
  destruct (handler_cache o st request)
    as [-> | (brand & envelope & result & notes & _ & _ & _ & _ & ->)]; [done|].
  intros key r. rewrite lookup_insert.
  case_decide; [|by apply Hwf]. intros [= <-]. by eexists _, _, _.
Qed.



(** Case analysis on a run of the [catch] block in the goal. *)
Ltac case_caught :=
  match goal with
  | |- context [caught rt env ?o ?s ?e ?a ?m] =>
      let Hcache := fresh "Hcache" in
      let Hout := fresh "Hout" in
      let Hev := fresh "Hev" in
      destruct (caught_spec o s e a m) as (Hcache & Hout & [Hev | Hev]);
      rewrite ?Hev
  end.

Lemma dispatch_events (o : Oracle) (v : Validated) (traceId : string)
    (brand : Brand) (grantKey : option string) (mode : Mode) :
  Forall (fun e => isNetwork e = true)
    (dispatch rt env o v traceId brand grantKey mode).2.
Proof.
  unfold dispatch, Actions.executeJobTreadQuery,
    Actions.executeJobTreadPushJobToQbo, Actions.executeMakeTrigger.
  repeat case_match; simpl; try by constructor.
  all: apply httpRequest_events.
Qed.

Lemma network_not_cache (evs : list Event) :
  Forall (fun e => isNetwork e = true) evs →
  Forall (fun e => touchesCache e = false) evs.
Proof. intros H. eapply Forall_impl; [exact H|]. by intros []. Qed.

(** C1, as the code has it. An [execute] request that is accepted
    (authenticated, envelope and params valid: the params are validated
    before the lookup, on every request) and whose key has a stored
    response gets that response verbatim with status 200; the stores are
    left as they were, and besides the params validation and the lookup
    nothing happens: no executor, no outbound call, no log entry, no cache
    write. *)
Theorem stored_response_is_returned (o : Oracle) (st : Store)
    (request : Request) (brand : Brand) (envelope : ActionEnvelope)
    (v : Validated) (evs : list Event) (stored : Response) :
  intake rt sc env o st request = inr (brand, envelope, v, evs) →
  mode envelope = execute →
  idempotencyCache st !! cacheKey brand envelope = Some stored →
  let run := handler rt sc env o st request in
  outcome run = Replied 200 stored
  ∧ store run = st
  ∧ events run
    = (validateParams sc (action envelope) (params envelope)).2
      ++ [EvCacheHas (cacheKey brand envelope);
          EvCacheGet (cacheKey brand envelope)]
  ∧ Forall (fun e => isWork e = false) (events run).
Proof.
  intros Hintake Hmode Hhit. unfold handler. rewrite Hintake.
  destruct (intake_envelope _ _ _ _ _ _ _ Hintake) as (_ & _ & ->).
  unfold execute_accepted. rewrite Hmode. simpl. rewrite Hhit. simpl.
  split; [done|]. split; [done|]. split; [done|].
  apply Forall_app. split; [|by repeat constructor].
  destruct (validateParams_events (action envelope) (params envelope))
    as [-> | ->]; by repeat constructor.
Qed.

(** C6. For a request whose envelope is valid and has mode [dry_run]: the
    cache is the same afterwards, no event reads or writes it, and the
    reply, the events and the audit log are the same whatever the cache
    holds, so a key stored by an earlier [execute] changes nothing; when
    the request is accepted and the grant key is available, the executor
    runs. *)
Theorem dry_run_bypasses_cache (o : Oracle) (st : Store) (request : Request)
    (envelope : ActionEnvelope) :
  validateEnvelope sc (body request) = inr envelope →
  mode envelope = dry_run →
  let run := handler rt sc env o st request in
  idempotencyCache (store run) = idempotencyCache st
  ∧ Forall (fun e => touchesCache e = false) (events run)
  ∧ (∀ cache',
       let run' :=
         handler rt sc env o
           {| idempotencyCache := cache'; logs := logs st |} request in
       outcome run' = outcome run
       ∧ events run' = events run
       ∧ logs (store run') = logs (store run)
       ∧ idempotencyCache (store run') = cache')
  ∧ (∀ brand v evs g,
       intake rt sc env o st request = inr (brand, envelope, v, evs) →
       grantKeyFor env brand (action envelope) = Ok g →
       EvExecute (action envelope) ∈ events run).
Proof.
  intros Henv Hmode. unfold handler.
  destruct (intake rt sc env o st request)
    as [run|[[[brand envelope'] v] evs]] eqn:Hintake.
  - destruct (intake_answered _ _ _ _ Hintake) as (Hstore & Hevs & _).
    split; [by rewrite Hstore|]. split.
    { eapply Forall_impl; [exact Hevs|]. by intros ? [? _]. }
    split; [|done]. intros cache'.
    revert Hintake. unfold intake, replied, caught.
    repeat case_match; intros [= <-]; simplify_eq; done.
  - destruct (intake_envelope _ _ _ _ _ _ _ Hintake) as (Henv' & _ & Hevs).
    assert (envelope' = envelope) as -> by congruence.
    assert (Forall (fun e => touchesCache e = false) evs) as Hevs'.
    { rewrite Hevs.
      destruct (validateParams_events (action envelope) (params envelope))
        as [-> | ->]; by repeat constructor. }
    split; [|split; [|split]].
    + destruct (execute_accepted_cache o st brand envelope v evs)
        as [Hsame | (Hexec & _)]; [done|congruence].
    + unfold execute_accepted, replied. rewrite Hmode. simpl.
      pose proof (λ g, network_not_cache _
                    (dispatch_events o v (uuid o) brand g dry_run)) as Hran.
      destruct (grantKeyFor env brand (action envelope)) as [g|m];
        [specialize (Hran g);
         destruct (dispatch rt env o v (uuid o) brand g dry_run) as [[done|m] ran];
         simpl in *;
         [destruct (Logs.addLog _ _ _ _ _).2; simpl|]|].
      all: try case_caught.
      all: repeat (apply Forall_app; split); try done.
      all: by repeat constructor.
    + intros cache'.
      rewrite (intake_accepted o o st {| idempotencyCache := cache'; logs := logs st |}
                 request _ Hintake).
      unfold execute_accepted, replied, caught. rewrite Hmode. simpl.
      repeat case_match; simplify_eq; done.
    + intros brand' v' evs' g [= <- <- <-] Hgrant.
      unfold execute_accepted, replied. rewrite Hmode. simpl. rewrite Hgrant.
      destruct (dispatch rt env o v (uuid o) brand g dry_run) as [[done|m] ran];
        simpl; [destruct (Logs.addLog _ _ _ _ _).2; simpl|].
      all: try case_caught.
      all: rewrite ?elem_of_app, ?elem_of_cons; tauto.
Qed.
(** When the lookup misses and the grant key is available, the executor
    runs. *)
Lemma execute_accepted_dispatches (o : Oracle) (st : Store) (brand : Brand)
    (envelope : ActionEnvelope) (v : Validated) (evs : list Event)
    (g : option string) :
  mode envelope = dry_run ∨ idempotencyCache st !! cacheKey brand envelope = None →
  grantKeyFor env brand (action envelope) = Ok g →
  EvExecute (action envelope)
  ∈ events (execute_accepted rt env o st brand envelope v evs).
Proof.
  intros Hmiss Hgrant. unfold execute_accepted, replied. rewrite Hgrant.
  assert ((match mode envelope with
           | dry_run => (None, [])
           | execute =>
               (idempotencyCache st !! cacheKey brand envelope,
                [EvCacheHas (cacheKey brand envelope)])
           end).1 = None) as ->.
  { destruct (mode envelope); [done|]. by destruct Hmiss. }
  destruct (dispatch rt env o v (uuid o) brand g (mode envelope)) as [[done|m] ran];
    simpl; [destruct (Logs.addLog _ _ _ _ _).2; simpl;
            [destruct (mode envelope); simpl|]|].
  all: try case_caught.
  all: rewrite ?elem_of_app, ?elem_of_cons; tauto.
Qed.

(** C5. An accepted [execute] request whose key has no record, whose
    grant key is available and whose executor throws: the cache is the
    same afterwards, still without a record for the key, no event writes
    it, the reply is the 500 of the [catch] block, and the same request,
    handled again on the stores as they are left, runs the executor
    again. *)
Theorem failed_execute_is_not_cached (o : Oracle) (st : Store)
    (request : Request) (brand : Brand) (envelope : ActionEnvelope)
    (v : Validated) (evs : list Event) (g : option string) (message : string) :
  intake rt sc env o st request = inr (brand, envelope, v, evs) →
  mode envelope = execute →
  idempotencyCache st !! cacheKey brand envelope = None →
  grantKeyFor env brand (action envelope) = Ok g →
  (dispatch rt env o v (uuid o) brand g execute).1 = Throw message →
  let run := handler rt sc env o st request in
  idempotencyCache (store run) = idempotencyCache st
  ∧ idempotencyCache (store run) !! cacheKey brand envelope = None
  ∧ (EvCacheSet (cacheKey brand envelope) ∉ events run)
  ∧ (outcome run = Replied 500 (Failure (Some (uuid o)) message None)
     ∨ ∃ m, outcome run = Rejected m)
  ∧ (∀ o', EvExecute (action envelope)
           ∈ events (handler rt sc env o' (store run) request)).
Proof.
  intros Hintake Hmode Hmiss Hgrant Hthrows.
  assert (let run := handler rt sc env o st request in
          idempotencyCache (store run) = idempotencyCache st
          ∧ (EvCacheSet (cacheKey brand envelope) ∉ events run)
          ∧ (outcome run = Replied 500 (Failure (Some (uuid o)) message None)
             ∨ ∃ m, outcome run = Rejected m)) as (Hsame & Hnoset & Hout).
  { unfold handler. rewrite Hintake.
    unfold execute_accepted. rewrite Hmode. simpl. rewrite Hmiss, Hgrant. simpl.
    pose proof (dispatch_events o v (uuid o) brand g execute) as Hran.
    destruct (dispatch rt env o v (uuid o) brand g execute) as [res ran].
    simpl in Hthrows. subst res. simpl in *.
    destruct (intake_envelope _ _ _ _ _ _ _ Hintake) as (_ & _ & Hevs).
    assert (EvCacheSet (cacheKey brand envelope) ∉ evs) as Hevs'.
    { rewrite Hevs.
      destruct (validateParams_events (action envelope) (params envelope))
        as [-> | ->].
      - apply not_elem_of_nil.
      - by intros [=]%list_elem_of_singleton. }
    assert (EvCacheSet (cacheKey brand envelope) ∉ ran) as Hran'.
    { intros Hin. rewrite Forall_forall in Hran. by apply Hran in Hin. }
    case_caught; (split; [done|]); (split; [|done]).
    all: rewrite ?elem_of_app, ?elem_of_cons, ?list_elem_of_singleton.
    all: intros Hin; decompose [or] Hin; try done.
    all: by match goal with H : _ ∈ [] |- _ => apply not_elem_of_nil in H end. }
  cbv zeta in *. split; [done|]. split; [by rewrite Hsame|].
  split; [done|]. split; [done|].
  intros o'. unfold handler at 1.
  rewrite (intake_accepted o o' st (store (handler rt sc env o st request))
             request _ Hintake).
  apply execute_accepted_dispatches with g; [|done].
  right. by rewrite Hsame.
Qed.


End endpoint.

Lemma plainObjectsb_sound (v : json) : plainObjectsb v = true → plainObjects v.
Proof.
  intros Hb fields Hocc. revert Hb.
  induction Hocc as [|items item Hin _ IH|fields' key value Hin _ IH]; simpl.
  - intros [Hhere _]%andb_true_iff. by apply negb_true_iff.
  - rewrite forallb_forall. intros Hall. apply IH, Hall.
    by apply list_elem_of_In.
  - intros [_ Hall]%andb_true_iff. rewrite forallb_forall in Hall.
    apply IH, (Hall (key, value)). by apply list_elem_of_In.
Qed.

(** ** The endpoint on the samples *)

Lemma stored_response_is_returned_witness :
  Server.intake Sample.rt Sample.schemas Sample.env (Sample.oracle Sample.offline)
    Sample.storeAfterPush Sample.pushExecute
  = inr (DB, Sample.pushEnvelope execute (JObj [("jobId", JStr "12345")]),
         Server.ForJobTreadPushJobToQbo Sample.pushParams,
         [EvValidateParams "jobtread.pushJobToQbo"])
  ∧ Server.outcome
      (Server.handler Sample.rt Sample.schemas Sample.env
         (Sample.oracle Sample.offline) Sample.storeAfterPush Sample.pushExecute)
    = Server.Replied 200 Sample.served.
Proof.
  assert (Server.intake Sample.rt Sample.schemas Sample.env
            (Sample.oracle Sample.offline) Sample.storeAfterPush Sample.pushExecute
          = inr (DB, Sample.pushEnvelope execute (JObj [("jobId", JStr "12345")]),
                 Server.ForJobTreadPushJobToQbo Sample.pushParams,
                 [EvValidateParams "jobtread.pushJobToQbo"])) as Hintake
    by (vm_compute; reflexivity).
  split; [exact Hintake|].
  refine (proj1 (stored_response_is_returned Sample.rt Sample.schemas Sample.env
                   (Sample.oracle Sample.offline) Sample.storeAfterPush
                   Sample.pushExecute _ _ _ _ Sample.served Hintake _ _)).
  - reflexivity.
  - vm_compute. reflexivity.
Defined.

(** C1 fails as stated. The key [jobtread.pushJobToQbo:DB:k1] has a stored
    response. An [execute] request with that action, tenant and key but
    params without [jobId] is answered 422 by the params validation, not
    with the stored response; and the request with valid params gets the
    stored response after its params were validated again. *)
Lemma stored_response_after_params_validation :
  Server.idempotencyCache Sample.storeAfterPush !! "jobtread.pushJobToQbo:DB:k1"
  = Some Sample.served
  ∧ Server.validateEnvelope Sample.schemas (Server.body Sample.pushExecuteNoJob)
    = inr (Sample.pushEnvelope execute (JObj []))
  ∧ Server.cacheKey DB (Sample.pushEnvelope execute (JObj []))
    = "jobtread.pushJobToQbo:DB:k1"
  ∧ Server.outcome
      (Server.handler Sample.rt Sample.schemas Sample.env
         (Sample.oracle Sample.offline) Sample.storeAfterPush
         Sample.pushExecuteNoJob)
    = Server.Replied 422
        (Server.Failure None "Invalid parameters for action"
           (Some [JStr "must have required property 'jobId'"]))
  ∧ Server.events
      (Server.handler Sample.rt Sample.schemas Sample.env
         (Sample.oracle Sample.offline) Sample.storeAfterPush Sample.pushExecute)
    = [EvValidateParams "jobtread.pushJobToQbo";
       EvCacheHas "jobtread.pushJobToQbo:DB:k1";
       EvCacheGet "jobtread.pushJobToQbo:DB:k1"].
Proof. repeat split; vm_compute; reflexivity. Qed.



Lemma failed_execute_is_not_cached_witness :
  Server.intake Sample.rt Sample.schemas Sample.env (Sample.oracle Sample.offline)
    Sample.emptyStore Sample.pushExecute
  = inr (DB, Sample.pushEnvelope execute (JObj [("jobId", JStr "12345")]),
         Server.ForJobTreadPushJobToQbo Sample.pushParams,
         [EvValidateParams "jobtread.pushJobToQbo"])
  ∧ Server.idempotencyCache
      (Server.store
         (Server.handler Sample.rt Sample.schemas Sample.env
            (Sample.oracle Sample.offline) Sample.emptyStore Sample.pushExecute))
    = ∅
  ∧ EvExecute "jobtread.pushJobToQbo"
    ∈ Server.events
        (Server.handler Sample.rt Sample.schemas Sample.env
           (Sample.oracle Sample.online)
           (Server.store
              (Server.handler Sample.rt Sample.schemas Sample.env
                 (Sample.oracle Sample.offline) Sample.emptyStore
                 Sample.pushExecute))
           Sample.pushExecute).
Proof.
  assert (Server.intake Sample.rt Sample.schemas Sample.env
            (Sample.oracle Sample.offline) Sample.emptyStore Sample.pushExecute
          = inr (DB, Sample.pushEnvelope execute (JObj [("jobId", JStr "12345")]),
                 Server.ForJobTreadPushJobToQbo Sample.pushParams,
                 [EvValidateParams "jobtread.pushJobToQbo"])) as Hintake
    by (vm_compute; reflexivity).
  split; [exact Hintake|].
  destruct (failed_execute_is_not_cached Sample.rt Sample.schemas Sample.env
              (Sample.oracle Sample.offline) Sample.emptyStore Sample.pushExecute
              _ _ _ _ (Some "grant-key-db")
              "Failed to push job to QuickBooks: HTTP request failed after 3 attempts: connect ECONNREFUSED"
              Hintake) as (Hsame & _ & _ & _ & Hagain).
  - reflexivity.
  - vm_compute. reflexivity.
  - vm_compute. reflexivity.
  - vm_compute. reflexivity.
  - split; [exact Hsame|]. exact (Hagain (Sample.oracle Sample.online)).
Defined.

Lemma dry_run_bypasses_cache_witness :
  Server.validateEnvelope Sample.schemas (Server.body Sample.pushDryRun)
  = inr (Sample.pushEnvelope dry_run (JObj [("jobId", JStr "12345")]))
  ∧ Server.idempotencyCache
      (Server.store
         (Server.handler Sample.rt Sample.schemas Sample.env
            (Sample.oracle Sample.offline) Sample.storeAfterPush Sample.pushDryRun))
    = Server.idempotencyCache Sample.storeAfterPush.
Proof.
  assert (Server.validateEnvelope Sample.schemas (Server.body Sample.pushDryRun)
          = inr (Sample.pushEnvelope dry_run (JObj [("jobId", JStr "12345")])))
    as Henv by (vm_compute; reflexivity).
  split; [exact Henv|].
  exact (proj1 (dry_run_bypasses_cache Sample.rt Sample.schemas Sample.env
                  (Sample.oracle Sample.offline) Sample.storeAfterPush
                  Sample.pushDryRun _ Henv eq_refl)).
Defined.



(** * Further properties of the code *)

(** ** Audit log: masking and queries *)

Lemma flat_map_flat_map {A B C} (f : B → list C) (g : A → list B) (l : list A) :
  flat_map f (flat_map g l) = flat_map (fun x => flat_map f (g x)) l.
Proof.
  induction l as [|x l IH]; simpl; [done|].
  by rewrite flat_map_app, IH.
Qed.

Lemma flat_map_ext_Forall {A B} (f g : A → list B) (l : list A) :
  Forall (fun x => f x = g x) l → flat_map f l = flat_map g l.
Proof. induction 1 as [|x l Hx _ IH]; simpl; [done|]. by rewrite Hx, IH. Qed.



(** X1. Whatever the value, in the result of [maskSecrets] every property
    with a sensitive name, at any depth and inside arrays, holds the
    marker; and masking a masked value changes nothing. *)
Theorem maskSecrets_redacts_once_and_for_all (v : json) :
  redacted (Logs.maskSecrets v) = true
  ∧ Logs.maskSecrets (Logs.maskSecrets v) = Logs.maskSecrets v.
Proof.
  split; [apply maskSecrets_redacted|].
  induction v as [| | | |items IH|fields IH] using json_nested_ind; simpl; try done.
  - f_equal. rewrite map_map. induction IH as [|x l Hx _ IHl]; simpl; [done|].
    by rewrite Hx, IHl.
  - f_equal. rewrite flat_map_flat_map. apply flat_map_ext_Forall.
    eapply Forall_impl; [exact IH|]. intros [key value] Hvalue. simpl in *.
    destruct (String.eqb key "__proto__") eqn:Hproto; [done|].
    destruct (Logs.isSensitive key) eqn:Hsens; simpl.
    { by rewrite Hproto, Hsens. }
    destruct value; simpl; rewrite Hproto, Hsens; simpl in *; try done.
    all: by rewrite Hvalue.
Qed.



Lemma filterBy_wanted {F} `{EqDecision F} (want : option F)
    (get : Logs.LogEntry → F) (l : list Logs.LogEntry) :
  Logs.filterBy want get l = filter (fun e => wanted want (get e)) l.
Proof.
  destruct want as [w|]; simpl.
  - apply list_filter_iff. intros e. unfold wanted. split.
    + by intros <- ? [= <-].
    + intros Hw. by apply Hw.
  - induction l as [|e l IH]; [done|].
    rewrite filter_cons_True; [by rewrite <- IH|done].
Qed.

Lemma insertBy_sorted {A} (cmp : A → A → Z) (x : A) (l : list A) :
  (∀ a b, cmp a b ≤ 0 ∨ cmp b a ≤ 0) →
  Sorted (fun a b => cmp a b ≤ 0) l →
  Sorted (fun a b => cmp a b ≤ 0) (Logs.insertBy cmp x l).
Proof.
  intros Htotal. induction 1 as [|y l Hl IH Hhd]; simpl.
  - by repeat constructor.
  - destruct (Z.leb_spec (cmp x y) 0) as [Hle|Hgt].
    + constructor; [by constructor|]. by constructor.
    + constructor; [done|].
      destruct Hhd as [|z l' Hyz]; simpl.
      * constructor. destruct (Htotal x y); [lia|done].
      * destruct (cmp x z <=? 0); constructor; [|done].
        destruct (Htotal x y); [lia|done].
Qed.

(** X3. A query of the log returns exactly the stored entries that pass
    every filter given, each as often as it is stored; a filter that is
    absent (or an empty trace id or action) restricts nothing, and with
    no filters the whole log is returned. *)
Theorem getLogs_returns_the_matching_entries (rt : Runtime)
    (filters : option Logs.LogFilters) (logs : list Logs.LogEntry) :
  Logs.getLogs rt filters logs
  ≡ₚ match filters with
     | Some f => filter (passes f) logs
     | None => logs
     end.
Proof.
  unfold Logs.getLogs. rewrite sortBy_perm.
  destruct filters as [f|]; [|done].
  rewrite !filterBy_wanted, !list_filter_filter.
  erewrite list_filter_iff; [done|].
  intros e. unfold passes, wanted. tauto.
Qed.

(** X4. When the comparison of time stamps is total, the entries of a
    query's result stand newest first: no entry is followed directly by
    one that compares as later. *)
Theorem getLogs_newest_first (rt : Runtime) (filters : option Logs.LogFilters)
    (logs : list Logs.LogEntry) :
  (∀ a b, localeCompare rt a b ≤ 0 ∨ localeCompare rt b a ≤ 0) →
  Sorted (newestFirst rt) (Logs.getLogs rt filters logs).
Proof.
  intros Htotal. unfold Logs.getLogs, Logs.sortBy.
  match goal with |- Sorted _ (foldr _ [] ?l) => generalize l end.
  intros l. induction l as [|e l IH]; simpl; [constructor|].
  apply (insertBy_sorted
           (fun a b => localeCompare rt (Logs.timestamp b) (Logs.timestamp a)));
    [|exact IH].
  intros a b. destruct (Htotal (Logs.timestamp a) (Logs.timestamp b)); auto.
Qed.

Lemma getLogs_newest_first_witness :
  (∀ a b, localeCompare Sample.rt a b ≤ 0 ∨ localeCompare Sample.rt b a ≤ 0)
  ∧ Sorted (newestFirst Sample.rt)
      (Logs.getLogs Sample.rt None [Sample.january; Sample.may; Sample.april]).
Proof.
  assert (∀ a b, localeCompare Sample.rt a b ≤ 0
                 ∨ localeCompare Sample.rt b a ≤ 0) as Htotal.
  { intros a b. simpl. rewrite (String.compare_antisym b a).
    destruct (String.compare a b); simpl; lia. }
  split; [exact Htotal|].
  apply getLogs_newest_first. exact Htotal.
Defined.

(** ** Lint of a query *)

Lemma forEachIndexed_all {A} (Q : Lint.Pushed → Prop)
    (f : A → nat → Result Lint.Pushed) (l : list A) (start : nat) :
  Q ([], []) → (∀ a b, Q a → Q b → Q (Lint.pushed_app a b)) →
  (∀ x index, x ∈ l → ∃ a, f x index = Ok a ∧ Q a) →
  ∃ r, Lint.forEachIndexed f l start = Ok r ∧ Q r.
Proof.
  intros Hnil Happ. revert start.
  induction l as [|y l IH]; intros start Hall; simpl; [eauto|].
  destruct (Hall y start) as (a & -> & Ha); [apply elem_of_cons; by left|].
  destruct (IH (S start)) as (b & -> & Hb).
  { intros x index Hin. apply Hall, elem_of_cons. by right. }
  simpl. eauto.
Qed.

Lemma forEachEntry_all {A} (Q : Lint.Pushed → Prop)
    (f : string → A → Result Lint.Pushed) (l : list (string * A)) :
  Q ([], []) → (∀ a b, Q a → Q b → Q (Lint.pushed_app a b)) →
  (∀ key value, (key, value) ∈ l → ∃ a, f key value = Ok a ∧ Q a) →
  ∃ r, Lint.forEachEntry f l = Ok r ∧ Q r.
Proof.
  intros Hnil Happ.
  induction l as [|[k v] l IH]; intros Hall; simpl; [eauto|].
  destruct (Hall k v) as (a & -> & Ha); [apply elem_of_cons; by left|].
  destruct IH as (b & -> & Hb).
  { intros key value Hin. apply Hall, elem_of_cons. by right. }
  simpl. eauto.
Qed.

Lemma forEachIndexed_notes {A} (f : A → nat → Result Lint.Pushed) (l : list A)
    (start : nat) (r : Lint.Pushed) (x : A) :
  Lint.forEachIndexed f l start = Ok r → x ∈ l →
  ∃ index a, f x index = Ok a ∧ a.2 ⊆ r.2.
Proof.
  revert start r. induction l as [|y l IH]; intros start r Hrun Hin.
  - by apply not_elem_of_nil in Hin.
  - simpl in Hrun.
    apply bind_Ok in Hrun as (a & Ha & Hrun).
    apply bind_Ok in Hrun as (b & Hb & Hrun). injection Hrun as <-.
    apply elem_of_cons in Hin as [-> | Hin].
    + exists start, a. split; [done|]. simpl. intros n Hn.
      apply elem_of_app. by left.
    + destruct (IH _ _ Hb Hin) as (index & c & Hc & Hsub).
      exists index, c. split; [done|]. simpl. intros n Hn.
      apply elem_of_app. right. by apply Hsub.
Qed.

Lemma forEachEntry_notes {A} (f : string → A → Result Lint.Pushed)
    (l : list (string * A)) (r : Lint.Pushed) (key : string) (value : A) :
  Lint.forEachEntry f l = Ok r → (key, value) ∈ l →
  ∃ a, f key value = Ok a ∧ a.2 ⊆ r.2.
Proof.
  revert r. induction l as [|[k v] l IH]; intros r Hrun Hin.
  - by apply not_elem_of_nil in Hin.
  - simpl in Hrun.
    apply bind_Ok in Hrun as (a & Ha & Hrun).
    apply bind_Ok in Hrun as (b & Hb & Hrun). injection Hrun as <-.
    apply elem_of_cons in Hin as [[= -> ->] | Hin].
    + exists a. split; [done|]. simpl. intros n Hn.
      apply elem_of_app. by left.
    + destruct (IH _ Hb Hin) as (c & Hc & Hsub).
      exists c. split; [done|]. simpl. intros n Hn.
      apply elem_of_app. right. by apply Hsub.
Qed.

Lemma checkObject_quiet (v : json) :
  plainObjects v → withinLimits v →
  (∀ path, ∃ pushed, Lint.checkObject v path = Ok pushed ∧ pushed.1 = [])
  ∧ (∀ path, ∃ pushed, Lint.visit path v = Ok pushed ∧ pushed.1 = []).
Proof.
  assert (∀ a b : Lint.Pushed,
            a.1 = [] → b.1 = [] → (Lint.pushed_app a b).1 = []) as Happ.
  { intros a b Ha Hb. simpl. by rewrite Ha, Hb. }
  induction v as [| | | |items IH|fields IH] using json_nested_ind;
    intros Hplain Hlimits.
  1-4: split; intros path; simpl; eauto.
  - rewrite Forall_forall in IH.
    assert (∀ item, item ∈ items → plainObjects item ∧ withinLimits item)
      as Hitems.
    { intros item Hin. split; intros inside Hocc.
      - apply Hplain. eapply occurs_item; eauto.
      - apply Hlimits. eapply occurs_item; eauto. }
    split; intros path.
    + rewrite checkObject_array.
      apply (forEachIndexed_all (fun p => p.1 = [])); [done|exact Happ|].
      intros item index Hin. destruct (Hitems item Hin). by apply (IH item Hin).
    + simpl. apply (forEachIndexed_all (fun p => p.1 = [])); [done|exact Happ|].
      intros item index Hin. destruct (Hitems item Hin). by apply (IH item Hin).
  - rewrite Forall_forall in IH.
    assert (∀ path, ∃ pushed,
              Lint.checkObject (JObj fields) path = Ok pushed ∧ pushed.1 = [])
      as Hobject.
    { intros path. rewrite checkObject_object. unfold Lint.checkRules.
      rewrite (Hplain fields (occurs_here _)).
      destruct (Hlimits fields (occurs_here _)) as [Hemail Hsize].
      rewrite Hemail, andb_false_r. cbn [mbind Result_bind].
      destruct (forEachEntry_all (fun p => p.1 = [])
                  (fun key value => Lint.visit (Lint.childPath path key) value)
                  fields) as (below & -> & Hbelow); [done|exact Happ| |].
      { intros key value Hin. apply (IH (key, value) Hin); intros inside Hocc.
        - apply Hplain. eapply occurs_property; eauto.
        - apply Hlimits. eapply occurs_property; eauto. }
      eexists. split; [reflexivity|]. simpl. rewrite Hbelow, app_nil_r.
      destruct (assoc "size" fields) as [[| |size| | |]|] eqn:Hfound; try done.
      specialize (Hsize size eq_refl).
      by rewrite (proj2 (Z.ltb_ge 100 size) Hsize). }
    split; [exact Hobject|]. intros path. apply Hobject.
Qed.

(** X5. The lint raises no false alarm: a query in which no object has an
    [email] property, a numeric [size] above 100 or a property named
    [hasOwnProperty] is found valid, with no errors. *)
Theorem lintJobTreadQuery_accepts_queries_within_limits (pave : json) :
  plainObjects pave → withinLimits pave →
  ∃ notes, Lint.lintJobTreadQuery pave
           = Ok {| Lint.valid := true; Lint.notes := notes; Lint.errors := [] |}.
Proof.
  intros Hplain Hlimits. unfold Lint.lintJobTreadQuery.
  destruct (proj1 (checkObject_quiet pave Hplain Hlimits) "")
    as ([errors notes] & -> & Herrors).
  simpl in *. subst errors. by exists notes.
Qed.

Lemma lintJobTreadQuery_accepts_queries_within_limits_witness :
  ∃ notes, Lint.lintJobTreadQuery
             (JObj [("jobs", JObj [("size", JNum 100);
                                   ("nodes", JObj [("id", JObj [])])])])
           = Ok {| Lint.valid := true; Lint.notes := notes; Lint.errors := [] |}.
Proof.
  apply lintJobTreadQuery_accepts_queries_within_limits.
  - apply plainObjectsb_sound. reflexivity.
  - intros fields Hocc.
    repeat match goal with
           | H : _ ∈ [] |- _ => by apply not_elem_of_nil in H
           | H : _ ∈ _ :: _ |- _ => apply elem_of_cons in H as [H|H]
           | H : (_, _) = (_, _) |- _ => injection H as -> ->
           | H : occursIn _ (JObj _) |- _ => inversion H; clear H; subst
           | H : occursIn _ (JNum _) |- _ => inversion H
           end.
    all: split; [reflexivity|]; simpl; intros size [=]; lia.
Defined.

Lemma checkObject_reports_unitPrice (inner v : json) :
  pricedWithoutCost inner →
  (∀ path pushed,
     occursIn inner v → Lint.checkObject v path = Ok pushed →
     ∃ where_, Lint.unitPriceNote where_ ∈ pushed.2)
  ∧ (∀ path pushed,
       occursIn inner v → Lint.visit path v = Ok pushed →
       ∃ where_, Lint.unitPriceNote where_ ∈ pushed.2).
Proof.
  intros (inside & -> & Hprice & Hcost).
  induction v as [| | | |items IH|fields IH] using json_nested_ind.
  1-4: split; intros path pushed Hocc; inversion Hocc.
  - split; intros path pushed Hocc Hrun;
      inversion Hocc as [|? item Hin Hitem|]; subst.
    + rewrite checkObject_array in Hrun.
      destruct (forEachIndexed_notes _ _ _ _ _ Hrun Hin) as (index & a & Ha & Hsub).
      rewrite Forall_forall in IH.
      pose proof (proj2 (IH item Hin) _ _ Hitem Ha) as [w Hw]. exists w. by apply Hsub.
    + simpl in Hrun.
      destruct (forEachIndexed_notes _ _ _ _ _ Hrun Hin) as (index & a & Ha & Hsub).
      rewrite Forall_forall in IH.
      pose proof (proj1 (IH item Hin) _ _ Hitem Ha) as [w Hw]. exists w. by apply Hsub.
  - assert (∀ path pushed,
              occursIn (JObj inside) (JObj fields) →
              Lint.checkObject (JObj fields) path = Ok pushed →
              ∃ where_, Lint.unitPriceNote where_ ∈ pushed.2) as Hobject.
    { intros path pushed Hocc Hrun. rewrite checkObject_object in Hrun.
      apply bind_Ok in Hrun as (here & Hhere & Hrun).
      apply bind_Ok in Hrun as (below & Hbelow & Hrun). injection Hrun as <-.
      inversion Hocc as [| |? key value Hin Hvalue]; subst.
      - exists path. simpl. apply elem_of_app. left.
        unfold Lint.checkRules in Hhere.
        destruct (hasKey "hasOwnProperty" fields); [done|].
        injection Hhere as <-. simpl. rewrite Hprice, Hcost. simpl.
        apply elem_of_cons. by left.
      - destruct (forEachEntry_notes _ _ _ _ _ Hbelow Hin) as (a & Ha & Hsub).
        rewrite Forall_forall in IH.
        pose proof (proj2 (IH (key, value) Hin) _ _ Hvalue Ha) as [w Hw].
        exists w. simpl. apply elem_of_app. right. by apply Hsub. }
    split; [exact Hobject|]. intros path pushed Hocc Hrun. by eapply Hobject.
Qed.

(** X6. When the lint returns, every object of the query, at any depth,
    that names [unitPrice] and not [unitCost] is noted under some path. *)
Theorem lintJobTreadQuery_notes_unitPrice (pave inner : json)
    (lint : Lint.LintResult) :
  pricedWithoutCost inner → occursIn inner pave →
  Lint.lintJobTreadQuery pave = Ok lint →
  ∃ where_, Lint.unitPriceNote where_ ∈ Lint.notes lint.
Proof.
  intros Hpriced Hocc Hrun. unfold Lint.lintJobTreadQuery in Hrun.
  apply bind_Ok in Hrun as (pushed & Hpushed & Hrun). injection Hrun as <-.
  simpl. by eapply (proj1 (checkObject_reports_unitPrice inner pave Hpriced)).
Qed.

Lemma lintJobTreadQuery_notes_unitPrice_witness :
  ∃ where_,
    Lint.unitPriceNote where_
    ∈ Lint.notes {| Lint.valid := true;
                    Lint.notes := [Lint.unitPriceNote "items[0]"];
                    Lint.errors := [] |}.
Proof.
  apply (lintJobTreadQuery_notes_unitPrice
           (JObj [("items", JArr [JObj [("unitPrice", JObj [])]])])
           (JObj [("unitPrice", JObj [])])).
  - exists [("unitPrice", JObj [])]. by repeat split.
  - eapply occurs_property; [apply elem_of_cons; by left|].
    eapply occurs_item; [apply elem_of_cons; by left|]. apply occurs_here.
  - reflexivity.
Defined.

Lemma checkObject_throws_only (v : json) :
  (∀ path message, Lint.checkObject v path = Throw message →
     message = "obj.hasOwnProperty is not a function")
  ∧ (∀ path message, Lint.visit path v = Throw message →
       message = "obj.hasOwnProperty is not a function").
Proof.
  assert (∀ A (f : A → nat → Result Lint.Pushed) l start message,
            (∀ x index m, x ∈ l → f x index = Throw m →
               m = "obj.hasOwnProperty is not a function") →
            Lint.forEachIndexed f l start = Throw message →
            message = "obj.hasOwnProperty is not a function") as Hindexed.
  { intros A f l. induction l as [|y l IHl]; intros start message Hall; simpl; [done|].
    destruct (f y start) as [a|m] eqn:Hy; simpl.
    - destruct (Lint.forEachIndexed f l (S start)) as [b|m] eqn:Hrest; simpl; [done|].
      intros [= <-]. eapply IHl; [|exact Hrest].
      intros x index m' Hin. apply Hall, elem_of_cons. by right.
    - intros [= <-]. eapply Hall; [|exact Hy]. apply elem_of_cons. by left. }
  assert (∀ A (f : string → A → Result Lint.Pushed) l message,
            (∀ key value m, (key, value) ∈ l → f key value = Throw m →
               m = "obj.hasOwnProperty is not a function") →
            Lint.forEachEntry f l = Throw message →
            message = "obj.hasOwnProperty is not a function") as Hentries.
  { intros A f l. induction l as [|[k x] l IHl]; intros message Hall; simpl; [done|].
    destruct (f k x) as [a|m] eqn:Hy; simpl.
    - destruct (Lint.forEachEntry f l) as [b|m] eqn:Hrest; simpl; [done|].
      intros [= <-]. apply IHl; [|done].
      intros key value m' Hin. apply Hall, elem_of_cons. by right.
    - intros [= <-]. eapply Hall; [|exact Hy]. apply elem_of_cons. by left. }
  induction v as [| | | |items IH|fields IH] using json_nested_ind.
  1-4: split; intros path message; simpl; done.
  - rewrite Forall_forall in IH. split; intros path message.
    + rewrite checkObject_array. apply Hindexed.
      intros item index m Hin. apply (IH item Hin).
    + simpl. apply Hindexed. intros item index m Hin. apply (IH item Hin).
  - rewrite Forall_forall in IH.
    assert (∀ path message, Lint.checkObject (JObj fields) path = Throw message →
              message = "obj.hasOwnProperty is not a function") as Hobject.
    { intros path message. rewrite checkObject_object. unfold Lint.checkRules.
      destruct (hasKey "hasOwnProperty" fields); simpl; [by intros [= <-]|].
      destruct (Lint.forEachEntry _ fields) as [below|m] eqn:Hbelow; simpl; [done|].
      intros [= <-]. eapply Hentries; [|exact Hbelow].
      intros key value m' Hin. apply (IH (key, value) Hin). }
    split; [exact Hobject|]. intros path message. apply Hobject.
Qed.

Lemma checkObject_throws (inner v : json) :
  shadowsHasOwnProperty inner → occursIn inner v →
  (∀ path, Lint.checkObject v path = Throw "obj.hasOwnProperty is not a function")
  ∧ (∀ path, Lint.visit path v = Throw "obj.hasOwnProperty is not a function").
Proof.
  intros (inside & -> & Hshadow).
  assert (∀ A (f : A → nat → Result Lint.Pushed) l start x,
            x ∈ l →
            (∀ index, f x index = Throw "obj.hasOwnProperty is not a function") →
            (∀ y index m, y ∈ l → f y index = Throw m →
               m = "obj.hasOwnProperty is not a function") →
            Lint.forEachIndexed f l start
            = Throw "obj.hasOwnProperty is not a function") as Hindexed.
  { intros A f l. induction l as [|y l IHl]; intros start x Hin Hx Hall.
    - by apply not_elem_of_nil in Hin.
    - simpl. destruct (f y start) as [a|m] eqn:Hy; simpl.
      + apply elem_of_cons in Hin as [-> | Hin]; [by rewrite Hx in Hy|].
        rewrite (IHl (S start) x Hin Hx); [done|].
        intros z index m Hz. apply Hall, elem_of_cons. by right.
      + f_equal. eapply Hall; [|exact Hy]. apply elem_of_cons. by left. }
  assert (∀ A (f : string → A → Result Lint.Pushed) l key value,
            (key, value) ∈ l →
            f key value = Throw "obj.hasOwnProperty is not a function" →
            (∀ k x m, (k, x) ∈ l → f k x = Throw m →
               m = "obj.hasOwnProperty is not a function") →
            Lint.forEachEntry f l
            = Throw "obj.hasOwnProperty is not a function") as Hentries.
  { intros A f l. induction l as [|[k y] l IHl]; intros key value Hin Hx Hall.
    - by apply not_elem_of_nil in Hin.
    - simpl. destruct (f k y) as [a|m] eqn:Hy; simpl.
      + apply elem_of_cons in Hin as [[= -> ->] | Hin]; [by rewrite Hx in Hy|].
        rewrite (IHl key value Hin Hx); [done|].
        intros k' z m Hz. apply Hall, elem_of_cons. by right.
      + f_equal. eapply Hall; [|exact Hy]. apply elem_of_cons. by left. }
  induction v as [| | | |items IH|fields IH] using json_nested_ind.
  1-4: intros Hocc; inversion Hocc.
  - intros Hocc. inversion Hocc as [|? item Hin Hitem|]; subst.
    rewrite Forall_forall in IH. split; intros path.
    + rewrite checkObject_array. apply (Hindexed _ _ _ _ item Hin).
      * intros index. by apply (IH item Hin).
      * intros y index m Hy. apply checkObject_throws_only.
    + simpl. apply (Hindexed _ _ _ _ item Hin).
      * intros index. by apply (IH item Hin).
      * intros y index m Hy. apply checkObject_throws_only.
  - intros Hocc.
    assert (∀ path, Lint.checkObject (JObj fields) path
                    = Throw "obj.hasOwnProperty is not a function") as Hobject.
    { intros path. rewrite checkObject_object. unfold Lint.checkRules.
      inversion Hocc as [| |? key value Hin Hvalue]; subst.
      - by rewrite Hshadow.
      - destruct (hasKey "hasOwnProperty" fields); [done|].
        cbn [mbind Result_bind].
        rewrite Forall_forall in IH.
        rewrite (Hentries _ _ _ key value Hin); [done| |].
        + by apply (IH (key, value) Hin).
        + intros k x m Hx. apply checkObject_throws_only. }
    split; [exact Hobject|]. intros path. apply Hobject.
Qed.

(** X7. A query in which some object, at any depth, has an own property
    named [hasOwnProperty] makes the lint throw a [TypeError] instead of
    returning a result; no other failure of the lint exists. *)
Theorem lintJobTreadQuery_throws_on_shadowed_method (pave : json) :
  (∀ message, Lint.lintJobTreadQuery pave = Throw message →
     message = "obj.hasOwnProperty is not a function")
  ∧ ((∃ inner, shadowsHasOwnProperty inner ∧ occursIn inner pave) ↔
     Lint.lintJobTreadQuery pave = Throw "obj.hasOwnProperty is not a function").
Proof.
  unfold Lint.lintJobTreadQuery. split; [|split].
  - intros message.
    destruct (Lint.checkObject pave "") as [p|m] eqn:Hrun; simpl; [done|].
    intros [= <-]. by eapply (proj1 (checkObject_throws_only pave)).
  - intros (inner & Hshadow & Hocc).
    by rewrite (proj1 (checkObject_throws inner pave Hshadow Hocc) "").
  - intros Hthrow.
    destruct (plainObjectsb pave) eqn:Hplain.
    + apply plainObjectsb_sound in Hplain.
      destruct (proj1 (checkObject_returns pave Hplain) "") as [p Hp].
      by rewrite Hp in Hthrow.
    + clear Hthrow. revert Hplain.
      induction pave as [| | | |items IH|fields IH] using json_nested_ind;
        simpl; try done.
      * intros Hsome. rewrite Forall_forall in IH.
        apply not_true_iff_false in Hsome.
        rewrite forallb_forall in Hsome.
        destruct (decide (Forall (fun x => plainObjectsb x = true) items))
          as [Hall|Hnot].
        { exfalso. apply Hsome. intros x Hin. rewrite Forall_forall in Hall.
          by apply Hall, list_elem_of_In. }
        apply not_Forall_Exists in Hnot; [|apply _].
        apply Exists_exists in Hnot as (item & Hin & Hitem).
        apply not_true_is_false in Hitem.
        destruct (IH item Hin Hitem) as (inner & Hshadow & Hocc).
        exists inner. split; [done|]. eapply occurs_item; eauto.
      * intros Hsome. rewrite Forall_forall in IH.
        destruct (hasKey "hasOwnProperty" fields) eqn:Hhere; simpl in Hsome.
        { exists (JObj fields). split; [by exists fields|apply occurs_here]. }
        apply not_true_iff_false in Hsome.
        rewrite forallb_forall in Hsome.
        destruct (decide (Forall (fun kv : string * json =>
                                    plainObjectsb kv.2 = true) fields))
          as [Hall|Hnot].
        { exfalso. apply Hsome. intros x Hin. rewrite Forall_forall in Hall.
          by apply Hall, list_elem_of_In. }
        apply not_Forall_Exists in Hnot; [|apply _].
        apply Exists_exists in Hnot as ([key value] & Hin & Hitem).
        apply not_true_is_false in Hitem.
        destruct (IH (key, value) Hin Hitem) as (inner & Hshadow & Hocc).
        exists inner. split; [done|]. eapply occurs_property; eauto.
Qed.

(** ** Allow-list of hosts *)

Lemma hostMatches_iff (hostname : string) (allowed : list string) :
  Allowlist.hostMatches hostname allowed = true ↔
  ∃ allowedHost, allowedHost ∈ allowed ∧ hostsRelated hostname allowedHost.
Proof.
  unfold hostsRelated. induction allowed as [|a rest IH]; simpl.
  - split; [done|]. intros (x & Hin & _). by apply not_elem_of_nil in Hin.
  - destruct (String.eqb hostname a) eqn:Heq.
    { apply String.eqb_eq in Heq. split; [|done]. intros _.
      exists a. split; [apply elem_of_cons; by left|by left]. }
    apply String.eqb_neq in Heq.
    destruct (Str.endsWith hostname ("." +:+ a)) eqn:Hsub.
    { apply endsWith_iff in Hsub as [q Hq]. split; [|done]. intros _.
      exists a. split; [apply elem_of_cons; by left|]. right. left. by exists q. }
    destruct (Str.endsWith a ("." +:+ hostname)) eqn:Hparent.
    { apply endsWith_iff in Hparent as [q Hq]. split; [|done]. intros _.
      exists a. split; [apply elem_of_cons; by left|]. right. right. by exists q. }
    rewrite IH. split.
    + intros (x & Hin & Hx). exists x. split; [apply elem_of_cons; by right|done].
    + intros (x & Hin & Hx). apply elem_of_cons in Hin as [-> | Hin]; [|by eauto].
      exfalso. destruct Hx as [Hx | [[q Hq] | [q Hq]]].
      * done.
      * assert (Str.endsWith hostname ("." +:+ a) = true) as Hyes
          by (apply endsWith_iff; by exists q).
        by rewrite Hyes in Hsub.
      * assert (Str.endsWith a ("." +:+ hostname) = true) as Hyes
          by (apply endsWith_iff; by exists q).
        by rewrite Hyes in Hparent.
Qed.


(** X9. An empty entry in [ALLOW_HOSTS] (as a trailing comma leaves one)
    allows every URL whose host name ends with a dot. *)
Theorem isHostAllowed_empty_entry (rt : Runtime) (allowHosts url hostname : string) :
  allowHosts ≠ "" →
  "" ∈ Allowlist.allowedHostsOf allowHosts →
  url_hostname rt url = Some hostname →
  Str.endsWith hostname "." = true →
  Allowlist.isHostAllowed rt (Some allowHosts) url = Ok true.
Proof.
  intros Hne Hin Hurl Hdot. unfold Allowlist.isHostAllowed.
  destruct allowHosts as [|c s]; [done|]. simpl. rewrite Hurl. f_equal.
  apply hostMatches_iff. exists "". split; [done|].
  right. left. apply endsWith_iff in Hdot as [q ->]. by exists q.
Qed.

Lemma isHostAllowed_empty_entry_witness :
  Allowlist.isHostAllowed Sample.rt (Some "hooks.make.com,")
    "https://intranet.example./hook" = Ok true.
Proof.
  apply (isHostAllowed_empty_entry Sample.rt _ _ "intranet.example.").
  - discriminate.
  - apply list_elem_of_In. vm_compute. tauto.
  - vm_compute. reflexivity.
  - vm_compute. reflexivity.
Defined.

(** ** Tenants *)

(** X10. The gateway key resolves to a tenant exactly as follows, both
    keys being configured: to DB when it is the DB key, to CI when it is
    the CI key and not also the DB key; to none otherwise. *)
Theorem getBrandFromGatewayKey_iff (env : Env) (key : string) (brand : Brand) :
  Auth.getBrandFromGatewayKey env key = Ok (Some brand) ↔
  ∃ keyDB keyCI,
    present (GATEWAY_KEY_DB env) = Some keyDB
    ∧ present (GATEWAY_KEY_CI env) = Some keyCI
    ∧ match brand with
      | DB => key = keyDB
      | CI => key = keyCI ∧ key ≠ keyDB
      end.
Proof.
  unfold Auth.getBrandFromGatewayKey.
  destruct (present (GATEWAY_KEY_DB env)) as [keyDB|].
  2: { split; [done|]. by intros (? & ? & ? & _). }
  destruct (present (GATEWAY_KEY_CI env)) as [keyCI|].
  2: { split; [done|]. by intros (? & ? & _ & ? & _). }
  destruct (String.eqb key keyDB) eqn:Hdb.
  { apply String.eqb_eq in Hdb. split.
    - intros [= <-]. by exists keyDB, keyCI.
    - intros (? & ? & [= <-] & [= <-] & Hb). destruct brand; [done|].
      by destruct Hb. }
  apply String.eqb_neq in Hdb.
  destruct (String.eqb key keyCI) eqn:Hci.
  { apply String.eqb_eq in Hci. split.
    - intros [= <-]. by exists keyDB, keyCI.
    - intros (? & ? & [= <-] & [= <-] & Hb). by destruct brand. }
  apply String.eqb_neq in Hci. split; [done|].
  intros (? & ? & [= <-] & [= <-] & Hb). destruct brand; [done|]. by destruct Hb.
Qed.

(** ** Outbound calls, whatever the network does *)

Lemma backoffFrom_S (first : Z) (count : nat) :
  backoffFrom first (S count)
  = backoffDelay (first + 1) :: backoffFrom (first + 1) count.
Proof.
  unfold backoffFrom. simpl. f_equal; [f_equal; lia|].
  rewrite <- fmap_S_seq, <- list_fmap_compose.
  apply list_fmap_ext. intros _ k _. simpl. f_equal. lia.
Qed.

Section http_any_network.
Context (rt : Runtime) (network : Z → Attempt).
Context (url : string) (method : Method) (headers : list (string * string))
        (body : option json) (timeout maxRetries : Z).

Local Abbreviation loop := (Http.loop rt network url method headers body timeout maxRetries).
Local Abbreviation sent := (Http.sent rt url method headers body timeout).

Lemma loop_bounded (left_ : nat) (attempt : Z) (lastError : option string) :
  left_ = Z.to_nat (maxRetries + 1 - attempt) →
  let run := loop attempt lastError in
  (requestsIn run.2 ≤ left_)%nat
  ∧ (attempt ≤ maxRetries → (1 ≤ requestsIn run.2)%nat)
  ∧ sleepsIn run.2 = backoffFrom attempt (requestsIn run.2 - 1)
  ∧ Forall (pauseOr sent) run.2
  ∧ (∀ response, run.1 = Ok response →
       ∃ r, network (attempt + Z.of_nat (requestsIn run.2) - 1) = Responded r
            ∧ response = {| Http.status := statusCode r;
                            Http.responseHeaders := deliveredHeaders r;
                            Http.data := Http.parseData rt (bodyText r) |}).
Proof.
  revert attempt lastError.
  induction left_ as [left_ IH] using lt_wf_ind. intros attempt lastError Hleft.
  rewrite loop_step.
  destruct (decide (attempt ≤ maxRetries)) as [Hin|Hout]; simpl.
  2: { unfold requestsIn, sleepsIn. simpl.
       split; [lia|]. split; [lia|]. split; [done|]. split; [constructor|done]. }
  destruct (network attempt) as [r|message] eqn:Hnet; simpl.
  { unfold requestsIn, sleepsIn. simpl.
    split; [lia|]. split; [lia|]. split; [done|]. split.
    - constructor; [by left|constructor].
    - intros response [= <-]. exists r. split; [|done].
      rewrite <- Hnet. f_equal. lia. }
  destruct (decide (maxRetries < attempt + 1)) as [Hlast|Hmore];
    cbv zeta; cbn [fst snd].
  { unfold requestsIn, sleepsIn. simpl.
    split; [lia|]. split; [lia|]. split; [done|]. split; [|done].
    constructor; [by left|constructor]. }
  destruct (IH (Z.to_nat (maxRetries + 1 - (attempt + 1))) ltac:(lia)
              (attempt + 1) (Some message) eq_refl)
    as (Hmost & Hleast & Hsleeps & Hall & Hok).
  specialize (Hleast ltac:(lia)).
  set (rest := loop (attempt + 1) (Some message)) in *.
  assert (requestsIn (sent :: EvSleep (backoffDelay (attempt + 1)) :: rest.2)
          = S (requestsIn rest.2)) as -> by reflexivity.
  assert (sleepsIn (sent :: EvSleep (backoffDelay (attempt + 1)) :: rest.2)
          = backoffDelay (attempt + 1) :: sleepsIn rest.2) as -> by reflexivity.
  split; [lia|]. split; [lia|]. split; [|split].
  - rewrite Hsleeps.
    replace (S (requestsIn rest.2) - 1)%nat with (S (requestsIn rest.2 - 1)) by lia.
    by rewrite backoffFrom_S.
  - constructor; [by left|]. constructor; [right; by eexists|done].
  - intros response Hresponse. destruct (Hok response Hresponse) as (r & Hr & ->).
    exists r. split; [|done]. rewrite <- Hr. f_equal. lia.
Qed.

End http_any_network.

(** Every event of an [httpRequest] is a pause or the one request. *)
Lemma httpRequest_calls (rt : Runtime) (network : Z → Attempt)
    (options : Http.HttpRequestOptions) :
  Forall (pauseOr (Http.sent rt (Http.url options) (Http.method options)
                     (default [] (Http.headers options)) (Http.body options)
                     (default 20000 (Http.timeout options))))
    (Http.httpRequest rt network options).2.
Proof.
  unfold Http.httpRequest.
  by destruct (loop_bounded rt network (Http.url options) (Http.method options)
                 (default [] (Http.headers options)) (Http.body options)
                 (default 20000 (Http.timeout options))
                 (default 2 (Http.maxRetries options))
                 (Z.to_nat (default 2 (Http.maxRetries options) + 1 - 0)) 0 None
                 eq_refl)
    as (_ & _ & _ & Hall & _).
Qed.

(** X11. Whatever the network does, one [httpRequest] makes at most
    [maxRetries + 1] outbound calls (none when [maxRetries] is negative,
    and then it throws), every call is the same request, the pauses are
    the back-off of as many retries as calls were made after the first,
    and a response is returned only as the network delivered it to the
    last call. *)
Theorem httpRequest_bounded (rt : Runtime) (network : Z → Attempt)
    (options : Http.HttpRequestOptions) :
  let maxRetries := default 2 (Http.maxRetries options) in
  let call := Http.sent rt (Http.url options) (Http.method options)
                (default [] (Http.headers options)) (Http.body options)
                (default 20000 (Http.timeout options)) in
  let run := Http.httpRequest rt network options in
  Z.of_nat (requestsIn run.2) ≤ Z.max 0 (maxRetries + 1)
  ∧ sleepsIn run.2 = backoffFrom 0 (requestsIn run.2 - 1)
  ∧ Forall (pauseOr call) run.2
  ∧ (∀ response, run.1 = Ok response →
       ∃ r, network (Z.of_nat (requestsIn run.2) - 1) = Responded r
            ∧ response = {| Http.status := statusCode r;
                            Http.responseHeaders := deliveredHeaders r;
                            Http.data := Http.parseData rt (bodyText r) |})
  ∧ (maxRetries < 0 → run = (Throw "HTTP request failed", [])).
Proof.
  intros maxRetries call run. subst run call. unfold Http.httpRequest.
  fold maxRetries.
  destruct (loop_bounded rt network (Http.url options) (Http.method options)
              (default [] (Http.headers options)) (Http.body options)
              (default 20000 (Http.timeout options)) maxRetries
              (Z.to_nat (maxRetries + 1 - 0)) 0 None eq_refl)
    as (Hmost & _ & Hsleeps & Hall & Hok).
  split; [lia|]. split; [done|]. split; [done|]. split; [exact Hok|].
  intros Hneg. rewrite loop_step. by destruct (decide (0 ≤ maxRetries)); [lia|].
Qed.

(** ** The executors *)

Lemma prepare_json (rt : Runtime) (fields : list (string * json)) :
  Http.prepare rt Actions.jsonHeaders (Some (JObj fields))
  = (Some (json_stringify rt (JObj fields)), Actions.jsonHeaders).
Proof. reflexivity. Qed.

(** X12. The webhook executor calls out only in [execute] mode, only
    after the allow-list accepted the URL, and only to that URL, by POST. *)
Theorem executeMakeTrigger_calls_allowed_url_only (rt : Runtime) (env : Env)
    (network : Z → Attempt) (params : Actions.MakeTriggerParams) (mode : Mode)
    (e : Event) :
  e ∈ (Actions.executeMakeTrigger rt env network params mode).2 →
  isRequest e = true →
  mode = execute
  ∧ Allowlist.isHostAllowed rt (ALLOW_HOSTS env) (Actions.webhookUrl params)
    = Ok true
  ∧ ∃ headers body timeout,
      e = EvRequest (Actions.webhookUrl params) POST headers body timeout.
Proof.
  unfold Actions.executeMakeTrigger.
  destruct (Allowlist.isHostAllowed rt (ALLOW_HOSTS env) (Actions.webhookUrl params))
    as [[|]|m]; simpl; try by intros ?%not_elem_of_nil.
  destruct mode; simpl; [by intros ?%not_elem_of_nil|].
  set (options := {| Http.url := Actions.webhookUrl params |}).
  pose proof (httpRequest_calls rt network options) as Hall.
  intros Hin Hreq.
  assert (e ∈ (Http.httpRequest rt network options).2) as Hin'.
  { by destruct (Http.httpRequest rt network options).1. }
  rewrite Forall_forall in Hall.
  destruct (Hall e Hin') as [-> | [ms ->]]; [|done].
  split; [done|]. split; [done|]. unfold Http.sent. simpl. eauto.
Qed.

Lemma executeMakeTrigger_calls_allowed_url_only_witness :
  Allowlist.isHostAllowed Sample.rt (ALLOW_HOSTS Sample.env)
    "https://hooks.make.com/abc" = Ok true.
Proof.
  refine (proj1 (proj2
    (executeMakeTrigger_calls_allowed_url_only Sample.rt Sample.env Sample.online
       {| Actions.webhookUrl := "https://hooks.make.com/abc";
          Actions.payload := JObj [("po", JNum 7)] |}
       execute
       (EvRequest "https://hooks.make.com/abc" POST Actions.jsonHeaders
          (Some (Sample.stringify (JObj [("po", JNum 7)]))) 20000) _ _))).
  - apply list_elem_of_In. vm_compute. tauto.
  - reflexivity.
Defined.

Lemma assoc_setKey {A} (k k' : string) (v : A) (l : list (string * A)) :
  assoc k (setKey k' v l) = if String.eqb k k' then Some v else assoc k l.
Proof.
  induction l as [|[key value] l IH]; simpl.
  - by destruct (String.eqb k k').
  - destruct (String.eqb k' key) eqn:Hkey; simpl.
    + apply String.eqb_eq in Hkey as <-. by destruct (String.eqb k k').
    + rewrite IH. destruct (String.eqb k key) eqn:Hk; [|done].
      apply String.eqb_eq in Hk as <-.
      by rewrite String.eqb_sym, Hkey.
Qed.

Lemma assoc_app {A} (k : string) (l1 l2 : list (string * A)) :
  assoc k (l1 ++ l2)
  = match assoc k l1 with Some v => Some v | None => assoc k l2 end.
Proof.
  induction l1 as [|[k1 v1] l1 IH]; simpl; [done|].
  by destruct (String.eqb k k1).
Qed.

(** What [{ ...base, ...value }] holds under a name: the property of
    [value] when it has one (the last, should the list repeat the name),
    that of [base] otherwise. *)
Lemma assoc_spread_fold {A} (k : string) (entries base : list (string * A)) :
  assoc k (fold_left (fun acc kv => setKey kv.1 kv.2 acc) entries base)
  = match assoc k (rev entries) with
    | Some v => Some v
    | None => assoc k base
    end.
Proof.
  revert base. induction entries as [|[key value] entries IH]; intros base; simpl.
  - done.
  - rewrite IH, assoc_setKey, assoc_app. simpl.
    destruct (assoc k (rev entries)); [done|].
    by destruct (String.eqb k key).
Qed.

Lemma assoc_rev_None {A} (k : string) (l : list (string * A)) :
  assoc k l = None → assoc k (rev l) = None.
Proof.
  induction l as [|[key value] l IH]; simpl; [done|].
  destruct (String.eqb k key) eqn:Hk; [done|]. intros Hl.
  rewrite assoc_app, (IH Hl). simpl. by rewrite Hk.
Qed.

Lemma assoc_rev_NoDup {A} (k : string) (l : list (string * A)) :
  NoDup l.*1 → assoc k (rev l) = assoc k l.
Proof.
  induction l as [|[key value] l IH]; simpl; [done|].
  intros [Hnot Hnodup]%NoDup_cons. rewrite assoc_app, IH by done. simpl.
  destruct (String.eqb k key) eqn:Hk; [|by destruct (assoc k l)].
  apply String.eqb_eq in Hk as ->.
  destruct (assoc key l) as [v|] eqn:Hl; [|done].
  exfalso. apply Hnot. clear -Hl.
  induction l as [|[k1 v1] l IHl]; simpl in *; [done|].
  destruct (String.eqb key k1) eqn:Hk.
  - apply String.eqb_eq in Hk as ->. apply elem_of_cons. by left.
  - apply elem_of_cons. right. by apply IHl.
Qed.

(** X13. The body the query executor sends to JobTread is the wrapper
    with the properties of [params.pave] spread over it: it carries the
    grant key the executor was given only when [pave] has no property
    named [$]; a [$] of the caller's [pave] replaces the credentials
    block. *)
Theorem executeJobTreadQuery_credentials (rt : Runtime) (network : Z → Attempt)
    (params : Actions.JobTreadQueryParams) (brand : Brand) (grantKey : string)
    (mode : Mode) (e : Event) :
  e ∈ (Actions.executeJobTreadQuery rt network params brand grantKey mode).2 →
  isRequest e = true →
  ∃ fields,
    e = EvRequest "https://api.jobtread.com/pave" POST Actions.jsonHeaders
          (Some (json_stringify rt (JObj fields))) 20000
    ∧ (hasKey "$" (entriesOf (Actions.pave params)) = false →
       assoc "$" fields
       = Some (JObj [("grantKey", JStr grantKey);
                     ("timeZone", JStr "America/Chicago")]))
    ∧ (∀ own entries,
         Actions.pave params = JObj entries → NoDup entries.*1 →
         assoc "$" entries = Some own →
         assoc "$" fields = Some own).
Proof.
  unfold Actions.executeJobTreadQuery.
  destruct (Lint.lintJobTreadQuery (Actions.pave params)) as [lint|m];
    simpl; [|by intros ?%not_elem_of_nil].
  destruct (Lint.valid lint); simpl; [|by intros ?%not_elem_of_nil].
  destruct mode; simpl; [by intros ?%not_elem_of_nil|].
  set (fields := spread (Actions.paveWrapper grantKey) (Actions.pave params)).
  set (options := {| Http.url := "https://api.jobtread.com/pave" |}).
  pose proof (httpRequest_calls rt network options) as Hall.
  intros Hin Hreq.
  assert (e ∈ (Http.httpRequest rt network options).2) as Hin'.
  { by destruct (Http.httpRequest rt network options).1. }
  rewrite Forall_forall in Hall.
  destruct (Hall e Hin') as [-> | [ms ->]]; [|done].
  exists fields. split; [done|].
  unfold fields, spread. rewrite assoc_spread_fold. split.
  - intros Hnone. unfold hasKey in Hnone.
    destruct (assoc "$" (entriesOf (Actions.pave params))) eqn:Hown; [done|].
    by rewrite (assoc_rev_None _ _ Hown).
  - intros own entries Hpave Hnodup Hown. rewrite Hpave. simpl.
    by rewrite assoc_rev_NoDup, Hown.
Qed.

Lemma executeJobTreadQuery_credentials_witness :
  ∃ fields,
    EvRequest "https://api.jobtread.com/pave" POST Actions.jsonHeaders
      (Some (Sample.stringify
               (JObj [("version", JObj []);
                      ("$", JObj [("grantKey", JStr "grant-key-ci")]);
                      ("currentGrant", JObj [("_type", JObj []); ("id", JObj [])]);
                      ("jobs", JObj [])])))
      20000
    = EvRequest "https://api.jobtread.com/pave" POST Actions.jsonHeaders
        (Some (json_stringify Sample.rt (JObj fields))) 20000
    ∧ (hasKey "$" [("$", JObj [("grantKey", JStr "grant-key-ci")]);
                   ("jobs", JObj [])] = false →
       assoc "$" fields
       = Some (JObj [("grantKey", JStr "grant-key-db");
                     ("timeZone", JStr "America/Chicago")]))
    ∧ (∀ own entries,
         JObj [("$", JObj [("grantKey", JStr "grant-key-ci")]); ("jobs", JObj [])]
         = JObj entries → NoDup entries.*1 →
         assoc "$" entries = Some own →
         assoc "$" fields = Some own).
Proof.
  apply (executeJobTreadQuery_credentials Sample.rt Sample.online
           {| Actions.pave :=
                JObj [("$", JObj [("grantKey", JStr "grant-key-ci")]);
                      ("jobs", JObj [])] |}
           DB "grant-key-db" execute).
  - apply list_elem_of_In. vm_compute. tauto.
  - reflexivity.
Defined.


(** ** Keys of the idempotency cache *)

Lemma cacheKey_injective (brand brand' : Brand)
    (envelope envelope' : Server.ActionEnvelope) :
  Server.action envelope ∈ knownActions →
  Server.action envelope' ∈ knownActions →
  Server.cacheKey brand envelope = Server.cacheKey brand' envelope' →
  brand = brand'
  ∧ Server.action envelope = Server.action envelope'
  ∧ Server.idempotencyKey envelope = Server.idempotencyKey envelope'.
Proof.
  unfold Server.cacheKey, knownActions.
  destruct envelope as [a m k p], envelope' as [a' m' k' p']. simpl.
  rewrite !elem_of_cons.
  intros [-> | [-> | [-> | [-> | Hnil]]]];
    [| | | |by apply not_elem_of_nil in Hnil].
  all: intros [-> | [-> | [-> | [-> | Hnil]]]];
    [| | | |by apply not_elem_of_nil in Hnil].
  all: destruct brand, brand'; intros Hkey; vm_compute in Hkey.
  all: try discriminate Hkey.
  all: by injection Hkey as ->.
Qed.



(** ** Headers of an outbound call *)

Lemma assoc_setKey_other {A} (k k' : string) (v : A) (l : list (string * A)) :
  k ≠ k' → assoc k (setKey k' v l) = assoc k l.
Proof.
  intros Hne. rewrite assoc_setKey.
  destruct (String.eqb k k') eqn:Hk; [|done]. by apply String.eqb_eq in Hk.
Qed.

(** X23. The headers that go on the wire are the caller's: every header
    the caller set to a non-empty value is sent with that value, and the
    only header ever added is [content-type: application/json], exactly
    when a body that is not a string (and not falsy) is sent and the
    caller gave no content type. *)
Theorem prepare_keeps_the_callers_headers (rt : Runtime)
    (headers : list (string * string)) (body : option json) :
  let wire := (Http.prepare rt headers body).2 in
  (∀ name value,
     assoc name headers = Some value → value ≠ "" →
     assoc name wire = Some value)
  ∧ (∀ name,
       name ≠ "content-type" → assoc name wire = assoc name headers)
  ∧ (assoc "content-type" wire ≠ assoc "content-type" headers ↔
     present (assoc "content-type" headers) = None
     ∧ ∃ b, body = Some b ∧ Http.truthy b = true ∧ ∀ text, b ≠ JStr text).
Proof.
  unfold Http.prepare.
  assert (∀ value : string,
            present (Some value) = None → value = "") as Hempty.
  { intros value. unfold present. by destruct value. }
  destruct body as [b|]; simpl.
  2: { split; [done|]. split; [done|]. split; [done|].
       by intros (_ & b & [=] & _). }
  destruct (Http.truthy b) eqn:Htruthy; simpl.
  2: { split; [done|]. split; [done|]. split; [done|].
       intros (_ & b' & [= <-] & Hyes & _). congruence. }
  assert (∀ b', (∀ text, b' ≠ JStr text) →
            let wire := match present (assoc "content-type" headers) with
                        | Some _ => headers
                        | None => setKey "content-type" "application/json" headers
                        end in
            (∀ name value,
               assoc name headers = Some value → value ≠ "" →
               assoc name wire = Some value)
            ∧ (∀ name, name ≠ "content-type" →
                 assoc name wire = assoc name headers)
            ∧ (assoc "content-type" wire ≠ assoc "content-type" headers ↔
               present (assoc "content-type" headers) = None
               ∧ ∃ b0, Some b' = Some b0 ∧ Http.truthy b0 = Http.truthy b'
                       ∧ ∀ text, b0 ≠ JStr text)) as Hobject.
  { intros b' Hnot. simpl.
    destruct (present (assoc "content-type" headers)) as [given|] eqn:Hgiven.
    - split; [done|]. split; [done|]. split; [done|]. by intros [[=] _].
    - split; [|split; [|split]].
      + intros name value Hname Hvalue.
        destruct (decide (name = "content-type")) as [-> | Hne];
          [|by rewrite assoc_setKey_other].
        exfalso. rewrite Hname in Hgiven. by apply Hempty in Hgiven.
      + intros name Hne. by apply assoc_setKey_other.
      + intros _. split; [done|]. by exists b'.
      + intros _. rewrite assoc_setKey. simpl.
        destruct (assoc "content-type" headers) as [value|]; [|done].
        apply Hempty in Hgiven as ->. done. }
  destruct b as [| | | text | |]; simpl in Htruthy; try done.
  - destruct (Hobject (JBool b)) as (H1 & H2 & H3); [done|].
    split; [exact H1|]. split; [exact H2|]. rewrite H3.
    split; intros (? & b0 & ? & ? & ?); (split; [done|]); exists b0;
      simplify_eq; done.
  - destruct (Hobject (JNum n)) as (H1 & H2 & H3); [done|].
    split; [exact H1|]. split; [exact H2|]. rewrite H3.
    split; intros (? & b0 & ? & ? & ?); (split; [done|]); exists b0;
      simplify_eq; simpl; by rewrite ?Htruthy.
  - split; [done|]. split; [done|]. split; [done|].
    intros (_ & b' & [= <-] & _ & Hnot). by destruct (Hnot text).
  - destruct (Hobject (JArr items)) as (H1 & H2 & H3); [done|].
    split; [exact H1|]. split; [exact H2|]. rewrite H3.
    split; intros (? & b0 & ? & ? & ?); (split; [done|]); exists b0;
      simplify_eq; done.
  - destruct (Hobject (JObj fields)) as (H1 & H2 & H3); [done|].
    split; [exact H1|]. split; [exact H2|]. rewrite H3.
    split; intros (? & b0 & ? & ? & ?); (split; [done|]); exists b0;
      simplify_eq; done.
Qed.

(** ** Splitting at a separator *)

Lemma includes_cons_sep (c sep : ascii) (s : string) :
  Str.includes (String c s) (String sep "")
  = if Ascii.eqb c sep then true else Str.includes s (String sep "").
Proof.
  simpl. destruct (ascii_dec sep c) as [-> | Hne].
  - rewrite Ascii.eqb_refl. by destruct s.
  - destruct (Ascii.eqb c sep) eqn:Heq; [|done].
    apply Ascii.eqb_eq in Heq. congruence.
Qed.

Lemma includes_app_sep (a b : string) (sep : ascii) :
  Str.includes (a +:+ b) (String sep "")
  = Str.includes a (String sep "") || Str.includes b (String sep "").
Proof.
  induction a as [|c a IH]; [done|].
  change (String c a +:+ b) with (String c (a +:+ b)).
  rewrite !includes_cons_sep. by destruct (Ascii.eqb c sep).
Qed.

Lemma rev_cons (c : ascii) (s : string) :
  String.rev (String c s) = String.rev s +:+ String c "".
Proof. unfold String.rev. simpl. by rewrite rev_app_append. Qed.

Lemma split_go_pieces (sep : ascii) (cur s : string) :
  Str.includes (String.rev cur) (String sep "") = false →
  Forall (fun piece => Str.includes piece (String sep "") = false)
    (Str.split_go sep cur s).
Proof.
  revert cur. induction s as [|c s IH]; intros cur Hcur; simpl.
  - by repeat constructor.
  - destruct (Ascii.eqb c sep) eqn:Hc.
    + constructor; [done|]. by apply IH.
    + apply IH. rewrite rev_cons, includes_app_sep, Hcur, includes_cons_sep, Hc.
      done.
Qed.

Lemma split_go_app (sep : ascii) (a cur b : string) :
  Str.includes a (String sep "") = false →
  Str.split_go sep cur (a +:+ String sep b)
  = (String.rev cur +:+ a) :: Str.split_go sep "" b.
Proof.
  revert cur. induction a as [|c a IH]; intros cur Ha.
  - change ("" +:+ String sep b) with (String sep b). simpl.
    by rewrite Ascii.eqb_refl, append_empty.
  - change (String c a +:+ String sep b) with (String c (a +:+ String sep b)).
    rewrite includes_cons_sep in Ha.
    destruct (Ascii.eqb c sep) eqn:Hc; [done|]. simpl. rewrite Hc.
    rewrite (IH _ Ha), rev_cons, append_assoc. done.
Qed.

Lemma split_go_whole (sep : ascii) (a cur : string) :
  Str.includes a (String sep "") = false →
  Str.split_go sep cur a = [String.rev cur +:+ a].
Proof.
  revert cur. induction a as [|c a IH]; intros cur Ha; simpl.
  - by rewrite append_empty.
  - rewrite includes_cons_sep in Ha.
    destruct (Ascii.eqb c sep) eqn:Hc; [done|].
    rewrite (IH _ Ha), rev_cons, append_assoc. done.
Qed.

Lemma split_app (sep : ascii) (a b : string) :
  Str.includes a (String sep "") = false →
  Str.split sep (a +:+ String sep "" +:+ b) = a :: Str.split sep b.
Proof.
  intros Ha. unfold Str.split.
  change (String sep "" +:+ b) with (String sep b).
  by rewrite (split_go_app sep a "" b Ha).
Qed.

Lemma split_whole (sep : ascii) (a : string) :
  Str.includes a (String sep "") = false → Str.split sep a = [a].
Proof. intros Ha. unfold Str.split. by rewrite (split_go_whole sep a "" Ha). Qed.

Lemma join_cons (sep piece next : string) (rest : list string) :
  Str.join sep (piece :: next :: rest)
  = piece +:+ sep +:+ Str.join sep (next :: rest).
Proof. reflexivity. Qed.

(** Joining the pieces with the separator gives the string back. *)
Lemma join_split_go (sep : ascii) (cur s : string) :
  Str.join (String sep "") (Str.split_go sep cur s) = String.rev cur +:+ s.
Proof.
  revert cur. induction s as [|c s IH]; intros cur; cbn [Str.split_go].
  - simpl. by rewrite append_empty.
  - destruct (Ascii.eqb c sep) eqn:Hc.
    + apply Ascii.eqb_eq in Hc as ->.
      specialize (IH "").
      destruct (Str.split_go sep "" s) as [|piece rest] eqn:Hsplit.
      { by destruct s; simpl in Hsplit; [|destruct (Ascii.eqb _ _)]. }
      rewrite join_cons, IH. done.
    + rewrite IH, rev_cons, append_assoc. done.
Qed.

(** ** The admin endpoint *)

(** X24. The credentials are split at every colon and only the first two
    pieces are compared, so an administrator whose configured password
    (or user name) contains a colon can never sign in: whatever the
    request, the endpoint does not list the log. *)
Theorem admin_password_with_colon_never_signs_in (rt : Runtime)
    (decode : string → string) (env : Admin.AdminEnv)
    (authorization : option string) (q : Admin.Query)
    (logs : list Logs.LogEntry) (user pass : string) :
  present (Admin.ADMIN_BASIC_USER env) = Some user →
  present (Admin.ADMIN_BASIC_PASS env) = Some pass →
  Str.includes user ":" = true ∨ Str.includes pass ":" = true →
  Admin.handler rt decode env authorization q logs
  = Admin.Unauthorized "Authentication required"
  ∨ Admin.handler rt decode env authorization q logs
    = Admin.Unauthorized "Invalid credentials".
Proof.
  intros Huser Hpass Hcolon. unfold Admin.handler. rewrite Huser, Hpass.
  destruct (present authorization) as [authHeader|]; [|by left].
  destruct (Str.startsWith authHeader "Basic "); cbn [negb]; cbv zeta;
    [|by left].
  right.
  set (parts := Str.split ":" (decode (Str.slice 6 authHeader))).
  assert (Forall (fun piece => Str.includes piece ":" = false) parts) as Hparts.
  { by apply split_go_pieces. }
  rewrite Forall_forall in Hparts.
  destruct (bool_decide (parts !! 0%nat = Some user)) eqn:Hu; [|done].
  destruct (bool_decide (parts !! 1%nat = Some pass)) eqn:Hp; [|done].
  cbn [negb orb].
  exfalso. apply bool_decide_eq_true in Hu, Hp.
  apply list_elem_of_lookup_2 in Hu, Hp.
  apply Hparts in Hu, Hp. destruct Hcolon; congruence.
Qed.

Lemma admin_password_with_colon_never_signs_in_witness :
  Admin.handler Sample.rt Scenario.decode
    {| Admin.ADMIN_BASIC_USER := Some "admin";
       Admin.ADMIN_BASIC_PASS := Some "s3:cret" |}
    (Some "Basic YWRtaW46czNjcmV0") Scenario.everything [Sample.april]
  = Admin.Unauthorized "Authentication required"
  ∨ Admin.handler Sample.rt Scenario.decode
      {| Admin.ADMIN_BASIC_USER := Some "admin";
         Admin.ADMIN_BASIC_PASS := Some "s3:cret" |}
      (Some "Basic YWRtaW46czNjcmV0") Scenario.everything [Sample.april]
    = Admin.Unauthorized "Invalid credentials".
Proof.
  apply (admin_password_with_colon_never_signs_in Sample.rt Scenario.decode _
           _ _ _ "admin" "s3:cret").
  - reflexivity.
  - reflexivity.
  - right. reflexivity.
Defined.

(** X25. With a user name and a password configured that contain no
    colon, the endpoint lists the log exactly for a request whose
    [Authorization] header starts with [Basic ] and decodes to the user
    name, a colon and the password, followed by nothing or by a colon and
    anything at all; what it lists is then the result of [getLogs] for the
    filters of the query. *)
Theorem admin_logs_authentication (rt : Runtime) (decode : string → string)
    (env : Admin.AdminEnv) (authorization : option string) (q : Admin.Query)
    (logs : list Logs.LogEntry) (user pass : string) :
  present (Admin.ADMIN_BASIC_USER env) = Some user →
  present (Admin.ADMIN_BASIC_PASS env) = Some pass →
  Str.includes user ":" = false →
  Str.includes pass ":" = false →
  ((∃ listed, Admin.handler rt decode env authorization q logs
              = Admin.Listed listed) ↔
   ∃ header,
     present authorization = Some header
     ∧ Str.startsWith header "Basic " = true
     ∧ (decode (Str.slice 6 header) = user +:+ ":" +:+ pass
        ∨ ∃ more, decode (Str.slice 6 header)
                  = user +:+ ":" +:+ pass +:+ ":" +:+ more))
  ∧ (∀ listed,
       Admin.handler rt decode env authorization q logs = Admin.Listed listed →
       listed = Admin.getLogsOf rt q logs).
Proof.
  intros Huser Hpass Hu Hp. unfold Admin.handler. rewrite Huser, Hpass.
  destruct (present authorization) as [authHeader|].
  2: { split; [|done]. split; [by intros [? ?]|by intros (? & ? & _)]. }
  destruct (Str.startsWith authHeader "Basic ") eqn:Hbasic; cbn [negb]; cbv zeta.
  2: { split; [|done]. split; [by intros [? ?]|].
       intros (? & [= <-] & ? & _). congruence. }
  set (credentials := decode (Str.slice 6 authHeader)).
  assert (Str.join ":" (Str.split ":" credentials) = credentials) as Hjoin.
  { apply (join_split_go ":" "" credentials). }
  destruct (bool_decide (Str.split ":" credentials !! 0%nat = Some user)) eqn:H0;
    cbn [negb orb].
  2: { split; [|done]. split; [by intros [? ?]|].
       intros (? & [= <-] & _ & Hcred). exfalso.
       apply bool_decide_eq_false in H0. apply H0. fold credentials in Hcred.
       destruct Hcred as [-> | [more ->]]; by rewrite (split_app ":" user _ Hu). }
  destruct (bool_decide (Str.split ":" credentials !! 1%nat = Some pass)) eqn:H1;
    cbn [negb orb].
  2: { split; [|done]. split; [by intros [? ?]|].
       intros (? & [= <-] & _ & Hcred). exfalso.
       apply bool_decide_eq_false in H1. apply H1. fold credentials in Hcred.
       destruct Hcred as [-> | [more ->]]; rewrite (split_app ":" user _ Hu).
       - by rewrite (split_whole ":" pass Hp).
       - by rewrite (split_app ":" pass _ Hp). }
  split; [|by intros ? [= <-]]. split; [|by eauto].
  intros _. exists authHeader. split; [done|]. split; [done|].
  apply bool_decide_eq_true in H0, H1. fold credentials.
  destruct (Str.split ":" credentials) as [|first [|second rest]];
    simpl in *; try done.
  injection H0 as ->. injection H1 as ->.
  destruct rest as [|third rest].
  - left. by rewrite <- Hjoin.
  - right. exists (Str.join ":" (third :: rest)). by rewrite <- Hjoin.
Qed.

Lemma admin_logs_authentication_witness :
  Admin.handler Sample.rt Scenario.decode Scenario.adminEnv
    (Some "Basic YWRtaW46czNjcmV0") Scenario.everything
    [Sample.january; Sample.may]
  = Admin.Listed [Sample.may; Sample.january].
Proof.
  destruct (admin_logs_authentication Sample.rt Scenario.decode Scenario.adminEnv
              (Some "Basic YWRtaW46czNjcmV0") Scenario.everything
              [Sample.january; Sample.may] "admin" "s3cret"
              eq_refl eq_refl eq_refl eq_refl) as [[_ Hlists] Hlisted].
  destruct Hlists as [listed Hhandler].
  - exists "Basic YWRtaW46czNjcmV0". split; [reflexivity|]. split; [reflexivity|].
    left. reflexivity.
  - rewrite Hhandler. f_equal. by rewrite (Hlisted listed Hhandler).
Defined.

(** ** Signatures: what is accepted *)

Lemma unhex_lower (c : ascii) (d : Z) :
  Crypto.unhex c = Some d →
  0 ≤ d < 16 ∧ Crypto.hexDigit d = Str.lower c.
Proof.
  destruct c as [[] [] [] [] [] [] [] []]; vm_compute; intros H;
    try discriminate H; injection H as <-; by repeat split.
Qed.

Lemma byte_of_digits (hi lo : Z) :
  0 ≤ hi < 16 → 0 ≤ lo < 16 →
  Crypto.ZOfByte (Crypto.byteOfZ (16 * hi + lo)) / 16 = hi
  ∧ Crypto.ZOfByte (Crypto.byteOfZ (16 * hi + lo)) mod 16 = lo.
Proof.
  intros Hhi Hlo.
  assert (forallb (fun h => forallb (fun l =>
            (Crypto.ZOfByte (Crypto.byteOfZ (16 * h + l)) / 16 =? h)
            && (Crypto.ZOfByte (Crypto.byteOfZ (16 * h + l)) mod 16 =? l))
            (Z.of_nat <$> seq 0 16)) (Z.of_nat <$> seq 0 16) = true) as Hall
    by (vm_compute; reflexivity).
  rewrite forallb_forall in Hall.
  assert (∀ d, 0 ≤ d < 16 → In d (Z.of_nat <$> seq 0 16)) as Hin.
  { intros d Hd. apply list_elem_of_In, list_elem_of_fmap.
    exists (Z.to_nat d). split; [lia|]. apply elem_of_seq. lia. }
  specialize (Hall hi (Hin hi Hhi)). rewrite forallb_forall in Hall.
  specialize (Hall lo (Hin lo Hlo)). apply andb_true_iff in Hall as [H1 H2].
  split; by apply Z.eqb_eq.
Qed.

Lemma digits_of_byte (x : byte) (c1 c2 : ascii) :
  Str.lower c1 = Crypto.hexDigit (Crypto.ZOfByte x / 16) →
  Str.lower c2 = Crypto.hexDigit (Crypto.ZOfByte x mod 16) →
  ∃ hi lo, Crypto.unhex c1 = Some hi ∧ Crypto.unhex c2 = Some lo
           ∧ Crypto.byteOfZ (16 * hi + lo) = x.
Proof.
  assert (∀ c d, 0 ≤ d < 16 → Str.lower c = Crypto.hexDigit d →
            Crypto.unhex c = Some d) as Hdigit.
  { intros c d Hd Hc.
    assert (forallb (fun n => forallb (fun k =>
              implb (Ascii.eqb (Str.lower (ascii_of_nat n)) (Crypto.hexDigit k))
                (bool_decide (Crypto.unhex (ascii_of_nat n) = Some k)))
              (Z.of_nat <$> seq 0 16)) (seq 0 256) = true) as Hall
      by (vm_compute; reflexivity).
    rewrite forallb_forall in Hall.
    specialize (Hall (nat_of_ascii c)). rewrite ascii_nat_embedding in Hall.
    rewrite forallb_forall in Hall.
    assert (In d (Z.of_nat <$> seq 0 16)) as Hin.
    { apply list_elem_of_In, list_elem_of_fmap.
      exists (Z.to_nat d). split; [lia|]. apply elem_of_seq. lia. }
    assert (In (nat_of_ascii c) (seq 0 256)) as Hc'.
    { apply in_seq. pose proof (nat_ascii_bounded c). lia. }
    specialize (Hall Hc' d Hin). rewrite Hc, Ascii.eqb_refl in Hall.
    by apply bool_decide_eq_true in Hall. }
  intros H1 H2.
  assert (0 ≤ Crypto.ZOfByte x / 16 < 16 ∧ 0 ≤ Crypto.ZOfByte x mod 16 < 16
          ∧ Crypto.byteOfZ (16 * (Crypto.ZOfByte x / 16) + Crypto.ZOfByte x mod 16)
            = x) as (Hhi & Hlo & Hx).
  { destruct x; vm_compute; repeat split; congruence. }
  exists (Crypto.ZOfByte x / 16), (Crypto.ZOfByte x mod 16).
  split; [by apply Hdigit|]. split; [by apply Hdigit|done].
Qed.

(** What decodes to a buffer: its hexadecimal digits in either case,
    followed by anything that does not begin with two more digits. *)
Lemma fromHex_iff (b : Crypto.Buffer) (s : string) :
  Crypto.fromHex s = b ↔
  ∃ hex rest, s = hex +:+ rest
              ∧ Str.toLowerCase hex = Crypto.toHex b
              ∧ Crypto.fromHex rest = [].
Proof.
  revert s. induction b as [|x b IH]; intros s.
  - split.
    + intros Hs. by exists "", s.
    + intros (hex & rest & -> & Hhex & Hrest). by destruct hex.
  - split.
    + destruct s as [|c1 [|c2 s]]; try done. cbn [Crypto.fromHex].
      destruct (Crypto.unhex c1) as [hi|] eqn:H1; [|done].
      destruct (Crypto.unhex c2) as [lo|] eqn:H2; [|done].
      intros [= <- Hs]. apply IH in Hs as (hex & rest & -> & Hhex & Hrest).
      exists (String c1 (String c2 hex)), rest. split; [done|]. split; [|done].
      apply unhex_lower in H1 as [Hhi H1], H2 as [Hlo H2].
      destruct (byte_of_digits hi lo Hhi Hlo) as [Hd Hm].
      cbn [Str.toLowerCase Crypto.toHex]. by rewrite Hd, Hm, Hhex, H1, H2.
    + intros (hex & rest & -> & Hhex & Hrest).
      destruct hex as [|c1 [|c2 hex]]; try done.
      cbn [Str.toLowerCase Crypto.toHex] in Hhex.
      injection Hhex as H1 H2 Hhex.
      destruct (digits_of_byte x c1 c2 H1 H2) as (hi & lo & Hhi & Hlo & Hx).
      change (String c1 (String c2 hex) +:+ rest)
        with (String c1 (String c2 (hex +:+ rest))).
      cbn [Crypto.fromHex]. rewrite Hhi, Hlo, Hx. f_equal.
      apply IH. by exists hex, rest.
Qed.

(** X27. A signature header is accepted exactly when it is [sha256=]
    followed by the 64 hexadecimal digits of the HMAC-SHA256 of the body
    under the secret, in lower or upper case, followed by nothing or by
    anything that does not begin with two more hexadecimal digits. *)
Theorem verifyHmacSignature_accepts_exactly (body signature secret : string) :
  Auth.verifyHmacSignature body signature secret = true ↔
  ∃ hex rest,
    signature = "sha256=" +:+ hex +:+ rest
    ∧ Str.toLowerCase hex
      = Crypto.toHex (Crypto.hmacSha256 (Crypto.utf8 secret) (Crypto.utf8 body))
    ∧ Crypto.fromHex rest = [].
Proof.
  rewrite verifyHmacSignature_iff. split.
  - intros [Hprefix Hdigest].
    apply fromHex_iff in Hdigest as (hex & rest & Hslice & Hhex & Hrest).
    exists hex, rest. split; [|done].
    rewrite (startsWith_split _ _ Hprefix). simpl String.length.
    by rewrite Hslice.
  - intros (hex & rest & -> & Hhex & Hrest). split.
    + apply startsWith_app.
    + apply fromHex_iff. by exists hex, rest.
Qed.

(** ** The endpoint, further *)

Section endpoint_runs.
Context (rt : Runtime) (sc : Server.Schemas) (env : Env).

Import Server.

Local Arguments caught : simpl never.
Local Arguments dispatch : simpl never.
Local Arguments Logs.addLog : simpl never.
Local Arguments grantKeyFor : simpl never.
Local Arguments cacheKey : simpl never.

Lemma validateParams_known (action : string) (params : json) (v : Validated) :
  (validateParams sc action params).1 = ValidParams v → action ∈ knownActions.
Proof.
  unfold validateParams, knownActions.
  destruct (String.eqb action "echo") eqn:H1.
  { apply String.eqb_eq in H1 as ->. intros _. set_solver. }
  destruct (String.eqb action "jobtread.query") eqn:H2.
  { apply String.eqb_eq in H2 as ->. intros _. set_solver. }
  destruct (String.eqb action "jobtread.pushJobToQbo") eqn:H3.
  { apply String.eqb_eq in H3 as ->. intros _. set_solver. }
  destruct (String.eqb action "make.trigger") eqn:H4.
  { apply String.eqb_eq in H4 as ->. intros _. set_solver. }
  done.
Qed.

Lemma validateParams_push (action : string) (params : json)
    (p : Actions.JobTreadPushJobToQboParams) :
  (validateParams sc action params).1 = ValidParams (ForJobTreadPushJobToQbo p) →
  action = "jobtread.pushJobToQbo".
Proof.
  unfold validateParams, checked.
  destruct (String.eqb action "echo") eqn:?; [done|].
  destruct (String.eqb action "jobtread.query") eqn:?.
  { by destruct (validateJobTreadQuery sc params). }
  destruct (String.eqb action "jobtread.pushJobToQbo") eqn:Hp.
  { intros _. by apply String.eqb_eq. }
  repeat case_match; simpl; congruence.
Qed.

Lemma validateParams_no_work (action : string) (params : json) :
  Forall (fun e => isWork e = false ∧ touchesCache e = false ∧ isNetwork e = false)
    (validateParams sc action params).2.
Proof.
  destruct (validateParams_events sc action params) as [-> | ->];
    by repeat constructor.
Qed.


Lemma dispatch_dry_run (o : Oracle) (v : Validated) (traceId : string)
    (brand : Brand) (grantKey : option string) :
  (dispatch rt env o v traceId brand grantKey dry_run).2 = [].
Proof.
  unfold dispatch, Actions.executeJobTreadQuery,
    Actions.executeJobTreadPushJobToQbo, Actions.executeMakeTrigger.
  by repeat case_match.
Qed.

(** The outbound calls of steps 7 to 12 are those of the executor. *)
Lemma execute_accepted_requests (o : Oracle) (st : Store) (brand : Brand)
    (envelope : ActionEnvelope) (v : Validated) (evs : list Event) (e : Event) :
  e ∈ events (execute_accepted rt env o st brand envelope v evs) →
  isNetwork e = true →
  e ∈ evs
  ∨ ∃ g, grantKeyFor env brand (action envelope) = Ok g
         ∧ e ∈ (dispatch rt env o v (uuid o) brand g (mode envelope)).2.
Proof.
  unfold execute_accepted, replied.
  assert (∀ st' evs' a m,
            e ∈ events (caught rt env o st' evs' a m) → isNetwork e = true →
            e ∈ evs') as Hcaught.
  { intros st' evs' a m Hin Hnet.
    destruct (caught_spec rt env o st' evs' a m) as (_ & _ & [Hev | Hev]);
      rewrite Hev in Hin; [done|].
    apply elem_of_app in Hin as [Hin | Hin]; [done|].
    apply list_elem_of_singleton in Hin as ->. done. }
  set (hit := match mode envelope with
              | dry_run => (None, [])
              | execute =>
                  (idempotencyCache st !! cacheKey brand envelope,
                   [EvCacheHas (cacheKey brand envelope)])
              end).
  assert (∀ x, x ∈ hit.2 → isNetwork x = false) as Hhit.
  { intros x. unfold hit. destruct (mode envelope); simpl.
    - by intros ?%not_elem_of_nil.
    - by intros ->%list_elem_of_singleton. }
  intros Hin Hnet.
  assert (e ∉ hit.2) as Hnohit.
  { intros Hh. apply Hhit in Hh. congruence. }
  clearbody hit. clear Hhit.
  destruct hit.1 as [stored|].
  { simpl in Hin. rewrite !elem_of_app, list_elem_of_singleton in Hin.
    destruct Hin as [? | [? | ->]]; [by left|done|done]. }
  destruct (grantKeyFor env brand (action envelope)) as [g|m].
  2: { apply Hcaught in Hin; [|done].
       apply elem_of_app in Hin as [? | ?]; [by left|done]. }
  cut (e ∈ evs ∨ e ∈ (dispatch rt env o v (uuid o) brand g (mode envelope)).2).
  { intros [? | ?]; [by left|right; by exists g]. }
  destruct (dispatch rt env o v (uuid o) brand g (mode envelope)) as [[done|m] ran];
    simpl in *.
  2: { apply Hcaught in Hin; [|done].
       rewrite !elem_of_app, elem_of_cons in Hin.
       destruct Hin as [[? | ?] | [-> | ?]]; auto; done. }
  destruct (Logs.addLog _ _ _ _ _).2;
    [destruct (mode envelope); simpl in Hin|apply Hcaught in Hin; [|done]].
  all: rewrite ?elem_of_app, ?elem_of_cons in Hin.
  all: decompose [or] Hin; subst; auto; try done.
  all: by match goal with H : _ ∈ [] |- _ => apply not_elem_of_nil in H end.
Qed.

(** X14. A [dry_run] request never reaches the network: whatever the
    action and whatever the stores hold, no outbound call is made and no
    pause is taken. *)
Theorem dry_run_makes_no_outbound_call (o : Oracle) (st : Store)
    (request : Request) (envelope : ActionEnvelope) :
  validateEnvelope sc (body request) = inr envelope →
  mode envelope = dry_run →
  Forall (fun e => isNetwork e = false) (events (handler rt sc env o st request)).
Proof.
  intros Henv Hmode. apply Forall_forall. intros e Hin.
  destruct (isNetwork e) eqn:Hnet; [exfalso|done].
  revert Hin. unfold handler.
  destruct (intake rt sc env o st request)
    as [run|[[[brand envelope'] v] evs]] eqn:Hintake.
  - destruct (intake_answered rt sc env _ _ _ _ Hintake) as (_ & Hevs & _).
    rewrite Forall_forall in Hevs. intros Hin.
    destruct (Hevs e Hin) as [_ Hwork]. by destruct e.
  - destruct (intake_envelope rt sc env _ _ _ _ _ _ _ Hintake) as (Henv' & _ & Hevs).
    assert (envelope' = envelope) as -> by congruence.
    intros Hin.
    destruct (execute_accepted_requests _ _ _ _ _ _ _ Hin Hnet)
      as [Hin' | (g & _ & Hin')].
    + subst evs.
      pose proof (validateParams_no_work (action envelope) (params envelope)) as Hno.
      rewrite Forall_forall in Hno. destruct (Hno e Hin') as (_ & _ & Hno').
      congruence.
    + rewrite Hmode, dispatch_dry_run in Hin'. by apply not_elem_of_nil in Hin'.
Qed.

(** X15. Every outbound call made for a [jobtread.pushJobToQbo] request
    goes, by POST, to the JobTread endpoint, in [execute] mode only, and
    its body carries as credentials the grant key configured for the
    tenant the request was authenticated as. *)
Theorem pushJobToQbo_sends_the_tenant_grant_key (o : Oracle) (st : Store)
    (request : Request) (brand : Brand) (envelope : ActionEnvelope)
    (p : Actions.JobTreadPushJobToQboParams) (evs : list Event) (e : Event) :
  intake rt sc env o st request
  = inr (brand, envelope, ForJobTreadPushJobToQbo p, evs) →
  e ∈ events (handler rt sc env o st request) →
  isRequest e = true →
  mode envelope = execute
  ∧ ∃ grantKey fields,
      Auth.getGrantKeyForBrand env brand = Ok grantKey
      ∧ e = EvRequest "https://api.jobtread.com/pave" POST Actions.jsonHeaders
              (Some (json_stringify rt (JObj fields))) 20000
      ∧ assoc "$" fields
        = Some (JObj [("grantKey", JStr grantKey);
                      ("timeZone", JStr "America/Chicago")]).
Proof.
  intros Hintake Hin Hreq. unfold handler in Hin. rewrite Hintake in Hin.
  destruct (intake_envelope rt sc env _ _ _ _ _ _ _ Hintake) as (_ & Hparams & Hevs).
  apply validateParams_push in Hparams.
  assert (isNetwork e = true) as Hnet by (by destruct e).
  destruct (execute_accepted_requests _ _ _ _ _ _ _ Hin Hnet)
    as [Hin' | (g & Hgrant & Hin')].
  { subst evs.
    pose proof (validateParams_no_work (action envelope) (params envelope)) as Hno.
    rewrite Forall_forall in Hno. destruct (Hno e Hin') as (_ & _ & Hno').
    congruence. }
  unfold grantKeyFor in Hgrant. rewrite Hparams in Hgrant. simpl in Hgrant.
  destruct (Auth.getGrantKeyForBrand env brand) as [grantKey|m]; [|done].
  injection Hgrant as <-.
  unfold dispatch, Actions.executeJobTreadPushJobToQbo in Hin'. simpl in Hin'.
  destruct (mode envelope); [by apply not_elem_of_nil in Hin'|].
  split; [done|].
  match type of Hin' with
  | context [Http.httpRequest rt (network o) ?opts] => set (options := opts) in *
  end.
  pose proof (httpRequest_calls rt (network o) options) as Hall.
  assert (e ∈ (Http.httpRequest rt (network o) options).2) as Hin''.
  { by destruct (Http.httpRequest rt (network o) options).1. }
  rewrite Forall_forall in Hall.
  destruct (Hall e Hin'') as [-> | [ms ->]]; [|done].
  eexists grantKey, _. split; [done|]. split; [reflexivity|]. reflexivity.
Qed.


(** Steps 7 to 12 answer 200 or 500. *)
Lemma execute_accepted_codes (o : Oracle) (st : Store) (brand : Brand)
    (envelope : ActionEnvelope) (v : Validated) (evs : list Event)
    (code : Z) (payload : Response) :
  outcome (execute_accepted rt env o st brand envelope v evs)
  = Replied code payload →
  code = 200 ∨ code = 500.
Proof.
  unfold execute_accepted, replied.
  assert (∀ st' evs' a m,
            outcome (caught rt env o st' evs' a m) = Replied code payload →
            code = 200 ∨ code = 500) as Hcaught.
  { intros st' evs' a m Hout.
    destruct (caught_spec rt env o st' evs' a m) as (_ & [Hrep | [m' Hrej]] & _).
    - rewrite Hrep in Hout. injection Hout as <- <-. by right.
    - rewrite Hrej in Hout. discriminate. }
  destruct (match mode envelope with
            | dry_run => (None, [])
            | execute => _
            end).1 as [stored|]; simpl.
  { intros [= <- <-]. by left. }
  destruct (grantKeyFor env brand (action envelope)) as [g|m]; [|apply Hcaught].
  destruct (dispatch rt env o v (uuid o) brand g (mode envelope)).1 as [done|m];
    [|apply Hcaught].
  destruct (Logs.addLog _ _ _ _ _).2; [|apply Hcaught].
  destruct (mode envelope); simpl; intros [= <- <-]; by left.
Qed.

(** An [execute] request answered 200 has its response on record. *)
Lemma execute_accepted_recorded (o : Oracle) (st : Store) (brand : Brand)
    (envelope : ActionEnvelope) (v : Validated) (evs : list Event)
    (response : Response) :
  mode envelope = execute →
  outcome (execute_accepted rt env o st brand envelope v evs)
  = Replied 200 response →
  idempotencyCache (store (execute_accepted rt env o st brand envelope v evs))
    !! cacheKey brand envelope = Some response.
Proof.
  intros Hmode. unfold execute_accepted, replied. rewrite Hmode. simpl.
  assert (∀ st' evs' a m,
            outcome (caught rt env o st' evs' a m) ≠ Replied 200 response)
    as Hcaught.
  { intros st' evs' a m Hout.
    destruct (caught_spec rt env o st' evs' a m) as (_ & [Hrep | [m' Hrej]] & _).
    - rewrite Hrep in Hout. discriminate.
    - rewrite Hrej in Hout. discriminate. }
  destruct (idempotencyCache st !! cacheKey brand envelope) as [stored|] eqn:Hhit;
    simpl.
  { by intros [= <-]. }
  destruct (grantKeyFor env brand (action envelope)) as [g|m];
    [|by intros ?%Hcaught].
  destruct (dispatch rt env o v (uuid o) brand g execute).1 as [done|m];
    [|by intros ?%Hcaught].
  destruct (Logs.addLog _ _ _ _ _).2; [|by intros ?%Hcaught].
  simpl. intros [= <-]. by rewrite lookup_insert_eq.
Qed.

(** X16. Idempotent replay. Once an [execute] request has been answered
    200, the same request, whenever it is handled again on the stores as
    they were left, gets the very same response (trace identifier
    included), leaves the stores as they are, and causes no work: no
    executor run, no outbound call, no log entry, no cache write. *)
Theorem replay_returns_the_recorded_response (o o' : Oracle) (st : Store)
    (request : Request) (envelope : ActionEnvelope) (response : Response) :
  validateEnvelope sc (body request) = inr envelope →
  mode envelope = execute →
  outcome (handler rt sc env o st request) = Replied 200 response →
  let first := handler rt sc env o st request in
  let again := handler rt sc env o' (store first) request in
  outcome again = Replied 200 response
  ∧ store again = store first
  ∧ Forall (fun e => isWork e = false) (events again).
Proof.
  intros Henv Hmode Hout first again. subst first again.
  destruct (intake rt sc env o st request)
    as [run|[[[brand envelope'] v] evs]] eqn:Hintake.
  { exfalso. unfold handler in Hout. rewrite Hintake in Hout.
    destruct (intake_answered rt sc env _ _ _ _ Hintake)
      as (_ & _ & [(c & e & d & Hrun & Hc) | (m & Hrun)]);
      rewrite Hrun in Hout; injection Hout as ? ?; lia. }
  destruct (intake_envelope rt sc env _ _ _ _ _ _ _ Hintake) as (Henv' & _ & Hevs).
  assert (envelope' = envelope) as -> by congruence.
  assert (handler rt sc env o st request
          = execute_accepted rt env o st brand envelope v evs) as Hfirst.
  { unfold handler. by rewrite Hintake. }
  rewrite Hfirst in *.
  pose proof (execute_accepted_recorded _ _ _ _ _ _ _ Hmode Hout) as Hrecord.
  set (left_ := store (execute_accepted rt env o st brand envelope v evs)) in *.
  unfold handler.
  rewrite (intake_accepted rt sc env o o' st left_ request _ Hintake).
  unfold execute_accepted, replied. rewrite Hmode. simpl. rewrite Hrecord. simpl.
  split; [done|]. split; [done|].
  apply Forall_app. split; [|by repeat constructor].
  subst evs. eapply Forall_impl; [apply validateParams_no_work|]. by intros ? [? _].
Qed.

(** X17. Two accepted requests have the same cache key only when they
    have the same tenant, the same action and the same idempotency key:
    no request is ever served the stored response of another tenant or of
    another action. *)
Theorem cacheKey_separates_requests (o o' : Oracle) (st st' : Store)
    (request request' : Request) (brand brand' : Brand)
    (envelope envelope' : ActionEnvelope) (v v' : Validated)
    (evs evs' : list Event) :
  intake rt sc env o st request = inr (brand, envelope, v, evs) →
  intake rt sc env o' st' request' = inr (brand', envelope', v', evs') →
  cacheKey brand envelope = cacheKey brand' envelope' →
  brand = brand'
  ∧ action envelope = action envelope'
  ∧ idempotencyKey envelope = idempotencyKey envelope'.
Proof.
  intros Hintake Hintake'.
  destruct (intake_envelope rt sc env _ _ _ _ _ _ _ Hintake) as (_ & Hv & _).
  destruct (intake_envelope rt sc env _ _ _ _ _ _ _ Hintake') as (_ & Hv' & _).
  apply cacheKey_injective; by eapply validateParams_known.
Qed.

(** X18. A request refused with 400, 401 or 422 leaves no trace: both
    stores are as they were (no audit entry is written for it), and
    nothing was executed, called, logged or looked up in the cache. *)
Theorem refused_request_leaves_no_trace (o : Oracle) (st : Store)
    (request : Request) (code : Z) (payload : Response) :
  outcome (handler rt sc env o st request) = Replied code payload →
  code = 400 ∨ code = 401 ∨ code = 422 →
  store (handler rt sc env o st request) = st
  ∧ Forall (fun e => touchesCache e = false ∧ isWork e = false)
      (events (handler rt sc env o st request)).
Proof.
  unfold handler.
  destruct (intake rt sc env o st request)
    as [run|[[[brand envelope] v] evs]] eqn:Hintake.
  - intros _ _. destruct (intake_answered rt sc env _ _ _ _ Hintake) as (? & ? & _).
    by split.
  - intros Hout Hcode. apply execute_accepted_codes in Hout. lia.
Qed.






(** What intake checked of a request it accepted. *)
Lemma intake_authenticated (o : Oracle) (st : Store) (request : Request)
    (brand : Brand) (envelope : ActionEnvelope) (v : Validated)
    (evs : list Event) :
  intake rt sc env o st request = inr (brand, envelope, v, evs) →
  ∃ raw signature secret gatewayKey,
    present (rawBody request) = Some raw
    ∧ present (x_signature request) = Some signature
    ∧ present (HMAC_SECRET env) = Some secret
    ∧ Auth.verifyHmacSignature raw signature secret = true
    ∧ present (x_gateway_key request) = Some gatewayKey
    ∧ Auth.getBrandFromGatewayKey env gatewayKey = Ok (Some brand).
Proof.
  unfold intake.
  destruct (present (rawBody request)) as [raw|]; [|done].
  destruct (present (x_gateway_key request)) as [gatewayKey|]; [|done].
  destruct (present (x_signature request)) as [signature|]; [|done].
  destruct (present (HMAC_SECRET env)) as [secret|]; [|done].
  destruct (Auth.verifyHmacSignature raw signature secret) eqn:Hverify; [|done].
  simpl.
  destruct (Auth.getBrandFromGatewayKey env gatewayKey) as [[brand'|]|m] eqn:Hbrand;
    [|done|done].
  destruct (validateEnvelope sc (body request)) as [errors|envelope']; [done|].
  destruct (validateParams sc (action envelope') (params envelope')).1; try done.
  intros [= <- <- <- <-]. by exists raw, signature, secret, gatewayKey.
Qed.

(** X22. Nothing is done for a request that is not authenticated: when a
    run of the handler executes an action, calls out, pauses, writes a log
    entry or reads or writes the cache, then the request had a body, a
    signature header that [verifyHmacSignature] accepts for the raw body
    under the configured secret, a gateway key that resolves to a tenant,
    and a body the envelope schema accepts. *)
Theorem work_requires_authentication (o : Oracle) (st : Store)
    (request : Request) (e : Event) :
  e ∈ events (handler rt sc env o st request) →
  isWork e = true ∨ touchesCache e = true →
  ∃ raw signature secret gatewayKey brand envelope,
    present (rawBody request) = Some raw
    ∧ present (x_signature request) = Some signature
    ∧ present (HMAC_SECRET env) = Some secret
    ∧ Auth.verifyHmacSignature raw signature secret = true
    ∧ present (x_gateway_key request) = Some gatewayKey
    ∧ Auth.getBrandFromGatewayKey env gatewayKey = Ok (Some brand)
    ∧ validateEnvelope sc (body request) = inr envelope.
Proof.
  unfold handler.
  destruct (intake rt sc env o st request)
    as [run|[[[brand envelope] v] evs]] eqn:Hintake.
  - intros Hin Hwork. exfalso.
    destruct (intake_answered rt sc env _ _ _ _ Hintake) as (_ & Hevs & _).
    rewrite Forall_forall in Hevs. destruct (Hevs e Hin) as [Hcache Hno].
    destruct Hwork; congruence.
  - intros _ _.
    destruct (intake_authenticated _ _ _ _ _ _ _ Hintake)
      as (raw & signature & secret & gatewayKey & ? & ? & ? & ? & ? & ?).
    destruct (intake_envelope rt sc env _ _ _ _ _ _ _ Hintake) as (Henv & _ & _).
    by exists raw, signature, secret, gatewayKey, brand, envelope.
Qed.

End endpoint_runs.

(** ** The endpoint on the samples, further *)

Lemma dry_run_makes_no_outbound_call_witness :
  Forall (fun e => isNetwork e = false)
    (Server.events
       (Server.handler Sample.rt Sample.schemas Sample.env
          (Sample.oracle Sample.online) Sample.emptyStore Sample.pushDryRun)).
Proof.
  apply (dry_run_makes_no_outbound_call Sample.rt Sample.schemas Sample.env _ _ _
           (Sample.pushEnvelope dry_run (JObj [("jobId", JStr "12345")]))).
  - reflexivity.
  - reflexivity.
Defined.


Lemma pushJobToQbo_sends_the_tenant_grant_key_witness :
  Server.mode (Sample.pushEnvelope execute (JObj [("jobId", JStr "12345")]))
  = execute
  ∧ ∃ grantKey fields,
      Auth.getGrantKeyForBrand Sample.env DB = Ok grantKey
      ∧ EvRequest "https://api.jobtread.com/pave" POST Actions.jsonHeaders
          (Some (Sample.stringify
                   (JObj (Actions.paveWrapper "grant-key-db"
                          ++ [("pushJobToQbo",
                               JObj [("_type", JObj []);
                                     ("$", JObj [("id", JStr "12345")]);
                                     ("job", JObj [("_type", JObj []);
                                                   ("$", JObj [("id", JStr "12345")]);
                                                   ("id", JObj []);
                                                   ("qboId", JObj [])])])]))))
          20000
        = EvRequest "https://api.jobtread.com/pave" POST Actions.jsonHeaders
            (Some (json_stringify Sample.rt (JObj fields))) 20000
      ∧ assoc "$" fields
        = Some (JObj [("grantKey", JStr grantKey);
                      ("timeZone", JStr "America/Chicago")]).
Proof.
  apply (pushJobToQbo_sends_the_tenant_grant_key Sample.rt Sample.schemas Sample.env
           (Sample.oracle Sample.online) Sample.emptyStore Sample.pushExecute
           DB (Sample.pushEnvelope execute (JObj [("jobId", JStr "12345")]))
           Sample.pushParams [EvValidateParams "jobtread.pushJobToQbo"]).
  - vm_compute. reflexivity.
  - apply list_elem_of_In. vm_compute. tauto.
  - reflexivity.
Defined.

Lemma replay_returns_the_recorded_response_witness :
  let first :=
    Server.handler Sample.rt Sample.schemas Sample.env
      (Sample.oracle Sample.online) Sample.emptyStore Sample.pushExecute in
  let again :=
    Server.handler Sample.rt Sample.schemas Sample.env
      (Sample.oracle Sample.offline) (Server.store first) Sample.pushExecute in
  Server.outcome first
  = Server.Replied 200
      (Server.Success "0b7e4c1a-5d2f-4e8a-9c3b-6f1d2a7e8b90" (JStr "accepted")
         ["Job 12345 pushed to QuickBooks Online successfully"])
  ∧ Server.outcome again = Server.outcome first
  ∧ Server.store again = Server.store first.
Proof.
  assert (Server.outcome
            (Server.handler Sample.rt Sample.schemas Sample.env
               (Sample.oracle Sample.online) Sample.emptyStore Sample.pushExecute)
          = Server.Replied 200
              (Server.Success "0b7e4c1a-5d2f-4e8a-9c3b-6f1d2a7e8b90"
                 (JStr "accepted")
                 ["Job 12345 pushed to QuickBooks Online successfully"]))
    as Hfirst by (vm_compute; reflexivity).
  destruct (replay_returns_the_recorded_response Sample.rt Sample.schemas
              Sample.env (Sample.oracle Sample.online)
              (Sample.oracle Sample.offline) Sample.emptyStore Sample.pushExecute
              (Sample.pushEnvelope execute (JObj [("jobId", JStr "12345")]))
              _ eq_refl eq_refl Hfirst) as (Hout & Hstore & _).
  cbv zeta. split; [exact Hfirst|]. split; [|exact Hstore].
  by rewrite Hfirst.
Defined.

Lemma cacheKey_separates_requests_witness :
  DB = DB
  ∧ Server.action (Sample.pushEnvelope execute (JObj [("jobId", JStr "12345")]))
    = Server.action (Sample.pushEnvelope dry_run (JObj [("jobId", JStr "12345")]))
  ∧ Server.idempotencyKey
      (Sample.pushEnvelope execute (JObj [("jobId", JStr "12345")]))
    = Server.idempotencyKey
        (Sample.pushEnvelope dry_run (JObj [("jobId", JStr "12345")])).
Proof.
  apply (cacheKey_separates_requests Sample.rt Sample.schemas Sample.env
           (Sample.oracle Sample.online) (Sample.oracle Sample.offline)
           Sample.emptyStore Sample.storeAfterPush
           Sample.pushExecute Sample.pushDryRun DB DB _ _
           (Server.ForJobTreadPushJobToQbo Sample.pushParams)
           (Server.ForJobTreadPushJobToQbo Sample.pushParams)
           [EvValidateParams "jobtread.pushJobToQbo"]
           [EvValidateParams "jobtread.pushJobToQbo"]).
  - vm_compute. reflexivity.
  - vm_compute. reflexivity.
  - reflexivity.
Defined.

Lemma refused_request_leaves_no_trace_witness :
  Server.store
    (Server.handler Sample.rt Sample.schemas Sample.env
       (Sample.oracle Sample.online) Sample.storeAfterPush Sample.noBody)
  = Sample.storeAfterPush
  ∧ Forall (fun e => touchesCache e = false ∧ isWork e = false)
      (Server.events
         (Server.handler Sample.rt Sample.schemas Sample.env
            (Sample.oracle Sample.online) Sample.storeAfterPush Sample.noBody)).
Proof.
  apply (refused_request_leaves_no_trace Sample.rt Sample.schemas Sample.env
           (Sample.oracle Sample.online) Sample.storeAfterPush Sample.noBody 400
           (Server.Failure None "Request body is required" None)).
  - reflexivity.
  - by left.
Defined.




Lemma work_requires_authentication_witness :
  ∃ raw signature secret gatewayKey brand envelope,
    present (Server.rawBody Sample.pushExecute) = Some raw
    ∧ present (Server.x_signature Sample.pushExecute) = Some signature
    ∧ present (HMAC_SECRET Sample.env) = Some secret
    ∧ Auth.verifyHmacSignature raw signature secret = true
    ∧ present (Server.x_gateway_key Sample.pushExecute) = Some gatewayKey
    ∧ Auth.getBrandFromGatewayKey Sample.env gatewayKey = Ok (Some brand)
    ∧ Server.validateEnvelope Sample.schemas (Server.body Sample.pushExecute)
      = inr envelope.
Proof.
  apply (work_requires_authentication Sample.rt Sample.schemas Sample.env
           (Sample.oracle Sample.online) Sample.emptyStore Sample.pushExecute
           (EvExecute "jobtread.pushJobToQbo")).
  - apply list_elem_of_In. vm_compute. tauto.
  - left. reflexivity.
Defined.

